(** * TextGen.js: a thin client for a local inference server

    A shallow embedding of [src/TextGen.js].  The module builds chat
    payloads, POSTs them to a fixed endpoint, and scans the textual reply
    for a JSON array stored under the quoted key test.

    - JavaScript strings are sequences of UTF-16 code units ([jsstring]).
    - JavaScript values are the plain-data values the module handles
      ([value]); [VNull] is JavaScript's [null].
    - The host (network, file system, number printer) is an explicit
      [world]; an operation is a function from the world to an outcome
      (a returned value or a thrown exception) and the trace of the
      effects it performed, in order.  The module is single-threaded and
      every [await] is sequential, so [await e] is the evaluation of [e]. *)

From Stdlib Require Import String Ascii DecimalString.
From Stdlib Require Import NArith ZArith QArith Bool Lia List.
Import ListNotations.

Set Implicit Arguments.
Set Warnings "-register-all".
Open Scope N_scope.

(** ** Strings *)

(** A JavaScript string: UTF-16 code units. *)
Definition jsstring := list N.

(** An ASCII literal of the source as a JavaScript string. *)
Definition str (s : string) : jsstring :=
  map N_of_ascii (list_ascii_of_string s).

Definition QUOTE : N := 34.      (* double quote *)
Definition COLON : N := 58.
Definition COMMA : N := 44.
Definition LBRACKET : N := 91.   (* opening square bracket *)
Definition BACKSLASH : N := 92.
Definition RBRACKET : N := 93.   (* closing square bracket *)
Definition LBRACE : N := 123.    (* opening curly bracket *)
Definition RBRACE : N := 125.    (* closing curly bracket *)

(** A literal between double quotes, as it appears inside a text. *)
Definition quoted (s : string) : jsstring := QUOTE :: str s ++ [QUOTE].

(** [String.prototype.includes]: [needle] occurs in [hay]. *)
Definition includes (hay needle : jsstring) : Prop :=
  exists before after, hay = before ++ needle ++ after.

(** ** Regular expressions

    The fragment of ECMAScript patterns that the source uses: characters,
    a greedy star over a character class, sequencing and one capturing
    group.  The matcher is the backtracking matcher of the language
    specification, written with continuations: [k] is what remains to be
    matched after the current sub-pattern. *)

Inductive regex : Type :=
| Chr (c : N)                 (* a pattern character *)
| Star (cls : N -> bool)      (* class*, greedy *)
| Seq (r1 r2 : regex)
| Group (r : regex).          (* ( r ), capture 1 *)

(** [\s]: WhiteSpace and LineTerminator code points. *)
Definition is_regex_space (c : N) : bool :=
  (c =? 9) || (c =? 10) || (c =? 11) || (c =? 12) || (c =? 13) || (c =? 32)
  || (c =? 160) || (c =? 5760) || ((8192 <=? c) && (c <=? 8202))
  || (c =? 8232) || (c =? 8233) || (c =? 8239) || (c =? 8287)
  || (c =? 12288) || (c =? 65279).

(** [[^\]]]: any code unit but the closing bracket. *)
Definition not_rbracket (c : N) : bool := negb (c =? RBRACKET).

Section Matcher.
Variable R : Type.

(** Greedy repetition: take one more code unit of the class if that
    leads to a match, otherwise continue from here. *)
Fixpoint star_loop (cls : N -> bool) (k : jsstring -> option R)
         (s : jsstring) : option R :=
  match s with
  | c :: s' =>
      if cls c
      then match star_loop cls k s' with
           | Some r => Some r
           | None => k s
           end
      else k s
  | [] => k s
  end.

(** [rmatch r s cap k]: match [r] at the head of [s]; [cap] is the
    current value of capture 1. *)
Fixpoint rmatch (r : regex) (s : jsstring) (cap : option jsstring)
         (k : jsstring -> option jsstring -> option R) : option R :=
  match r with
  | Chr c =>
      match s with
      | x :: s' => if x =? c then k s' cap else None
      | [] => None
      end
  | Star cls => star_loop cls (fun s' => k s' cap) s
  | Seq r1 r2 => rmatch r1 s cap (fun s' cap' => rmatch r2 s' cap' k)
  | Group r1 =>
      rmatch r1 s cap
        (fun s' _ => k s' (Some (firstn (length s - length s') s)))
  end.
End Matcher.

(** The result of a successful match: [match[0]] and [match[1]]
    ([None] is [undefined]: the group did not take part). *)
Record match_result : Type := MatchResult {
  match_0 : jsstring;
  match_1 : option jsstring
}.

(** One attempt, anchored at the head of [s]. *)
Definition match_here (r : regex) (s : jsstring) : option match_result :=
  rmatch r s None
    (fun s' cap => Some (MatchResult (firstn (length s - length s') s) cap)).

(** [RegExp.prototype.exec] without flags: the first start index, from
    the left, at which an attempt succeeds (the index past the last code
    unit included). *)
Fixpoint regex_exec (r : regex) (s : jsstring) : option match_result :=
  match match_here r s with
  | Some m => Some m
  | None =>
      match s with
      | [] => None
      | _ :: s' => regex_exec r s'
      end
  end.

(** A run of pattern characters. *)
Fixpoint Chars (cs : jsstring) (r : regex) : regex :=
  match cs with
  | [] => r
  | c :: cs' => Seq (Chr c) (Chars cs' r)
  end.

(** The pattern of [extractTestArrayFromText]: the quoted key test, then
    whitespace-star, a colon, whitespace-star, and in capture 1 an opening
    bracket, a star over every code unit but the closing bracket, and a
    closing bracket. *)
Definition test_regex : regex :=
  Chars (quoted "test")
    (Seq (Star is_regex_space)
      (Seq (Chr COLON)
        (Seq (Star is_regex_space)
          (Group (Seq (Chr LBRACKET)
                   (Seq (Star not_rbracket) (Chr RBRACKET))))))).

(** ** Values and exceptions *)

(** The plain-data JavaScript values.  A number is the exact rational that
    its literal denotes; the rounding to binary64 (and so the overflow to
    an infinity and the negative zero) is outside the model.  An object is
    the list of its own properties in creation order; the engine's
    reordering of integer-like keys is outside the model. *)
Inductive value : Type :=
| VUndefined
| VNull
| VBool (b : bool)
| VNum (q : Q)
| VStr (s : jsstring)
| VArr (items : list value)
| VObj (props : list (jsstring * value)).

Inductive error_class : Type :=
| ErrorClass          (* Error *)
| TypeErrorClass      (* TypeError *)
| SyntaxErrorClass    (* SyntaxError *)
| HostErrorClass.     (* errors made by the host: FetchError, system errors *)

(** A thrown error object.  The message texts of the engine's own errors
    are engine-specific; the ones below are V8's wording and no theorem
    depends on them. *)
Record exn : Type := Exn {
  exn_class : error_class;
  exn_message : jsstring
}.

(** A synchronous completion: a returned value or a thrown exception. *)
Inductive result (A : Type) : Type :=
| Return (a : A)
| Throw (e : exn).
Arguments Return {A} a.
Arguments Throw {A} e.

Definition is_array (v : value) : bool :=
  match v with VArr _ => true | _ => false end.

(** Property read [v.key] for a key that no built-in prototype defines
    (the source reads [message] and [content] only): reading from [null]
    or [undefined] throws, an object gives its own property or
    [undefined], every other value gives [undefined]. *)
Fixpoint own_property (props : list (jsstring * value)) (key : jsstring)
  : value :=
  match props with
  | [] => VUndefined
  | (k, v) :: props' =>
      if list_eq_dec N.eq_dec k key then v else own_property props' key
  end.

Definition cannot_read (of_what : string) (key : jsstring) : exn :=
  Exn TypeErrorClass
    (str "Cannot read properties of " ++ str of_what
       ++ str " (reading '" ++ key ++ str "')").

Definition get_property (v : value) (key : jsstring) : result value :=
  match v with
  | VNull => Throw (cannot_read "null" key)
  | VUndefined => Throw (cannot_read "undefined" key)
  | VObj props => Return (own_property props key)
  | _ => Return VUndefined
  end.

(** ** JSON.parse *)

(** JSON whitespace: space, tab, line feed, carriage return. *)
Definition is_json_ws (c : N) : bool :=
  (c =? 32) || (c =? 9) || (c =? 10) || (c =? 13).

Fixpoint skip_ws (s : jsstring) : jsstring :=
  match s with
  | c :: s' => if is_json_ws c then skip_ws s' else s
  | [] => []
  end.

Definition is_digit (c : N) : bool := (48 <=? c) && (c <=? 57).

(** The longest run of decimal digits at the head of [s], and the rest. *)
Fixpoint span_digits (s : jsstring) : jsstring * jsstring :=
  match s with
  | c :: s' =>
      if is_digit c
      then let (ds, rest) := span_digits s' in (c :: ds, rest)
      else ([], s)
  | [] => ([], [])
  end.

Definition digits_value (ds : jsstring) : Z :=
  fold_left (fun acc d => (acc * 10 + Z.of_N (d - 48))%Z) ds 0%Z.

(** The number denoted by a literal with sign [neg], digits [ds] (integer
    and fraction digits together) and decimal exponent [e]. *)
Definition number_of_literal (neg : bool) (ds : jsstring) (e : Z) : Q :=
  let m := digits_value ds in
  let m := if neg then (- m)%Z else m in
  Qred (if (0 <=? e)%Z
        then Qmake (m * 10 ^ e) 1
        else Qmake m (Z.to_pos (10 ^ (- e)))).

(** The exponent part of a number, if any. *)
Definition parse_exponent (neg : bool) (ds : jsstring) (scale : Z)
           (s : jsstring) : option (Q * jsstring) :=
  match s with
  | c :: s' =>
      if (c =? 101) || (c =? 69)          (* e, E *)
      then
        let '(eneg, s1) :=
          match s' with
          | sg :: s'' =>
              if sg =? 45 then (true, s'')        (* - *)
              else if sg =? 43 then (false, s'')  (* + *)
              else (false, s')
          | [] => (false, s')
          end in
        let (es, s2) := span_digits s1 in
        match es with
        | [] => None
        | _ :: _ =>
            let e := digits_value es in
            let e := if eneg then (- e)%Z else e in
            Some (number_of_literal neg ds (scale + e), s2)
        end
      else Some (number_of_literal neg ds scale, s)
  | [] => Some (number_of_literal neg ds scale, s)
  end.

(** The fraction part of a number, if any, then the exponent. *)
Definition parse_fraction (neg : bool) (ints : jsstring) (s : jsstring)
  : option (Q * jsstring) :=
  match s with
  | c :: s' =>
      if c =? 46                            (* . *)
      then
        let (fs, s1) := span_digits s' in
        match fs with
        | [] => None
        | _ :: _ =>
            parse_exponent neg (ints ++ fs) (- Z.of_nat (length fs)) s1
        end
      else parse_exponent neg ints 0 s
  | [] => parse_exponent neg ints 0 s
  end.

(** A JSON number: an optional minus, then a zero or a digit run that
    does not start with a zero, then the fraction and the exponent. *)
Definition parse_number (s : jsstring) : option (Q * jsstring) :=
  let '(neg, s1) :=
    match s with
    | c :: s' => if c =? 45 then (true, s') else (false, s)
    | [] => (false, s)
    end in
  match s1 with
  | c :: s2 =>
      if c =? 48 then parse_fraction neg [c] s2
      else if is_digit c
           then let (ds, s3) := span_digits s1 in parse_fraction neg ds s3
           else None
  | [] => None
  end.

Definition hex_value (c : N) : option N :=
  if is_digit c then Some (c - 48)
  else if (97 <=? c) && (c <=? 102) then Some (c - 87)   (* a-f *)
  else if (65 <=? c) && (c <=? 70) then Some (c - 55)    (* A-F *)
  else None.

Definition hex4 (a b c d : N) : option N :=
  match hex_value a, hex_value b, hex_value c, hex_value d with
  | Some x, Some y, Some z, Some w => Some (((x * 16 + y) * 16 + z) * 16 + w)
  | _, _, _, _ => None
  end.

(** The code unit of a single-character escape. *)
Definition unescape (e : N) : option N :=
  if e =? QUOTE then Some QUOTE
  else if e =? BACKSLASH then Some BACKSLASH
  else if e =? 47 then Some 47        (* solidus *)
  else if e =? 98 then Some 8         (* b *)
  else if e =? 102 then Some 12       (* f *)
  else if e =? 110 then Some 10       (* n *)
  else if e =? 114 then Some 13       (* r *)
  else if e =? 116 then Some 9        (* t *)
  else None.

Definition cons_fst (c : N) (r : option (jsstring * jsstring))
  : option (jsstring * jsstring) :=
  match r with
  | Some (cs, rest) => Some (c :: cs, rest)
  | None => None
  end.

(** The characters of a JSON string after its opening quote, up to and
    including the closing quote. *)
Fixpoint parse_string_chars (s : jsstring) : option (jsstring * jsstring) :=
  match s with
  | [] => None
  | c :: s' =>
      if c =? QUOTE then Some ([], s')
      else if c =? BACKSLASH then
        match s' with
        | e :: s'' =>
            if e =? 117                     (* u *)
            then match s'' with
                 | h1 :: h2 :: h3 :: h4 :: s3 =>
                     match hex4 h1 h2 h3 h4 with
                     | Some u => cons_fst u (parse_string_chars s3)
                     | None => None
                     end
                 | _ => None
                 end
            else match unescape e with
                 | Some u => cons_fst u (parse_string_chars s'')
                 | None => None
                 end
        | [] => None
        end
      else if c <? 32 then None
      else cons_fst c (parse_string_chars s')
  end.

(** [s] without its prefix [p], when it starts with [p]. *)
Fixpoint strip_prefix (p s : jsstring) : option jsstring :=
  match p, s with
  | [], _ => Some s
  | a :: p', b :: s' => if a =? b then strip_prefix p' s' else None
  | _ :: _, [] => None
  end.

(** [CreateDataProperty]: a key that is already there keeps its place
    and takes the new value. *)
Fixpoint set_property (props : list (jsstring * value)) (key : jsstring)
         (v : value) : list (jsstring * value) :=
  match props with
  | [] => [(key, v)]
  | (k, old) :: props' =>
      if list_eq_dec N.eq_dec k key
      then (k, v) :: props'
      else (k, old) :: set_property props' key v
  end.

(** What a parser made of the head of its input. *)
Inductive parsed (A : Type) : Type :=
| Parsed (a : A) (rest : jsstring)
| Malformed
| OutOfFuel.
Arguments Parsed {A} a rest.
Arguments Malformed {A}.
Arguments OutOfFuel {A}.

(** The recursive-descent parser of the JSON grammar.  [parse_value]
    reads one value after leading whitespace; [parse_elements] reads the
    elements of an array after its opening bracket, [acc] being the
    elements read so far; [parse_members] does the same for an object.
    The recursion is on [fuel]; [JSON_parse] gives enough of it. *)
Fixpoint parse_value (fuel : nat) (s : jsstring) : parsed value :=
  match fuel with
  | O => OutOfFuel
  | S fuel' =>
      match skip_ws s with
      | [] => Malformed
      | c :: s' =>
          if c =? LBRACKET then
            match skip_ws s' with
            | c' :: s'' =>
                if c' =? RBRACKET then Parsed (VArr []) s''
                else parse_elements fuel' s' []
            | [] => Malformed
            end
          else if c =? LBRACE then
            match skip_ws s' with
            | c' :: s'' =>
                if c' =? RBRACE then Parsed (VObj []) s''
                else parse_members fuel' s' []
            | [] => Malformed
            end
          else if c =? QUOTE then
            match parse_string_chars s' with
            | Some (cs, rest) => Parsed (VStr cs) rest
            | None => Malformed
            end
          else
            match strip_prefix (str "true") (c :: s') with
            | Some rest => Parsed (VBool true) rest
            | None =>
            match strip_prefix (str "false") (c :: s') with
            | Some rest => Parsed (VBool false) rest
            | None =>
            match strip_prefix (str "null") (c :: s') with
            | Some rest => Parsed VNull rest
            | None =>
            match parse_number (c :: s') with
            | Some (q, rest) => Parsed (VNum q) rest
            | None => Malformed
            end end end end
      end
  end

with parse_elements (fuel : nat) (s : jsstring) (acc : list value)
  : parsed value :=
  match fuel with
  | O => OutOfFuel
  | S fuel' =>
      match parse_value fuel' s with
      | Parsed v rest =>
          match skip_ws rest with
          | c :: rest' =>
              if c =? COMMA then parse_elements fuel' rest' (acc ++ [v])
              else if c =? RBRACKET then Parsed (VArr (acc ++ [v])) rest'
              else Malformed
          | [] => Malformed
          end
      | Malformed => Malformed
      | OutOfFuel => OutOfFuel
      end
  end

with parse_members (fuel : nat) (s : jsstring)
       (acc : list (jsstring * value)) : parsed value :=
  match fuel with
  | O => OutOfFuel
  | S fuel' =>
      match skip_ws s with
      | c :: s' =>
          if c =? QUOTE then
            match parse_string_chars s' with
            | Some (key, s1) =>
                match skip_ws s1 with
                | c1 :: s2 =>
                    if c1 =? COLON then
                      match parse_value fuel' s2 with
                      | Parsed v rest =>
                          match skip_ws rest with
                          | c2 :: rest' =>
                              if c2 =? COMMA
                              then parse_members fuel' rest'
                                     (set_property acc key v)
                              else if c2 =? RBRACE
                              then Parsed (VObj (set_property acc key v)) rest'
                              else Malformed
                          | [] => Malformed
                          end
                      | Malformed => Malformed
                      | OutOfFuel => OutOfFuel
                      end
                    else Malformed
                | [] => Malformed
                end
            | None => Malformed
            end
          else Malformed
      | [] => Malformed
      end
  end.

Definition json_syntax_error : exn :=
  Exn SyntaxErrorClass (str "Unexpected token in JSON").

(** [JSON.parse(text)] without a reviver: one value between optional
    whitespace, or a SyntaxError. *)
Definition JSON_parse (text : jsstring) : result value :=
  match parse_value (2 * length text + 1) text with
  | Parsed v rest =>
      match skip_ws rest with
      | [] => Return v
      | _ :: _ => Throw json_syntax_error
      end
  | Malformed => Throw json_syntax_error
  | OutOfFuel => Throw json_syntax_error
  end.

(** ** The host *)

(** The second argument of [fetch]. *)
Record request_init : Type := RequestInit {
  init_method : jsstring;
  init_headers : list (jsstring * jsstring);
  init_body : option jsstring          (* [None] is [undefined] *)
}.

(** What the program can see of a [Response]: the status code, and the
    body text, whose reading may fail. *)
Record response : Type := Response {
  response_status : N;
  response_text : result jsstring
}.

(** The world outside the module: what a [fetch] of a request settles
    to, what [fs.readFile] of a path with an encoding settles to (the
    decoded text of the file, or an error), and [Number::toString] on the
    numbers that are not safe integers.  Every exported operation makes at
    most one network call and the loader one read, so an answer per
    request is all that an execution can observe. *)
Record world : Type := World {
  fetch_oracle : jsstring -> request_init -> result response;
  readFile_oracle : jsstring -> jsstring -> result jsstring;
  number_text : Q -> jsstring
}.

(** An argument of a console call. *)
Inductive console_arg : Type :=
| ArgValue (v : value)
| ArgError (e : exn).

(** The observable effects. *)
Inductive event : Type :=
| Fetch (url : jsstring) (init : request_init)
| ReadFile (path : jsstring) (encoding : jsstring)
| ConsoleError (args : list console_arg)
| ConsoleLog (args : list console_arg).

(** ** The monad of operations *)

Definition M (A : Type) : Type := world -> result A * list event.

Definition ret {A} (a : A) : M A := fun _ => (Return a, []).

Definition throw {A} (e : exn) : M A := fun _ => (Throw e, []).

Definition bind {A B} (m : M A) (f : A -> M B) : M B :=
  fun w =>
    match m w with
    | (Return a, t) => let (r, t') := f a w in (r, t ++ t')
    | (Throw e, t) => (Throw e, t)
    end.

(** [try { body } catch (error) { handler }]. *)
Definition try_catch {A} (body : M A) (handler : exn -> M A) : M A :=
  fun w =>
    match body w with
    | (Return a, t) => (Return a, t)
    | (Throw e, t) => let (r, t') := handler e w in (r, t ++ t')
    end.

(** A synchronous completion as an operation. *)
Definition lift {A} (r : result A) : M A := fun _ => (r, []).

Definition emit (e : event) : M unit := fun _ => (Return tt, [e]).

Declare Scope js_scope.
Delimit Scope js_scope with js.
Notation "x <- m ;; k" := (bind m (fun x => k))
  (at level 61, m at next level, right associativity) : js_scope.
Notation "m ;; k" := (bind m (fun _ => k))
  (at level 61, right associativity) : js_scope.
Open Scope js_scope.

(** The outcome, the trace, and the parts of the trace. *)
Definition outcome {A} (m : M A) (w : world) : result A := fst (m w).
Definition trace {A} (m : M A) (w : world) : list event := snd (m w).

Definition is_fetch (e : event) : bool :=
  match e with Fetch _ _ => true | _ => false end.
Definition is_console_error (e : event) : bool :=
  match e with ConsoleError _ => true | _ => false end.
Definition is_console_log (e : event) : bool :=
  match e with ConsoleLog _ => true | _ => false end.

(** The network calls and the diagnostic log entries of a trace. *)
Definition fetches (t : list event) : list event := filter is_fetch t.
Definition diagnostics (t : list event) : list event :=
  filter is_console_error t.

(** ** Host calls *)

Definition fetch (url : jsstring) (init : request_init) : M response :=
  fun w => (fetch_oracle w url init, [Fetch url init]).

Definition fs_readFile (path encoding : jsstring) : M jsstring :=
  fun w => (readFile_oracle w path encoding, [ReadFile path encoding]).

Definition console_error (args : list console_arg) : M unit :=
  emit (ConsoleError args).

Definition console_log (args : list console_arg) : M unit :=
  emit (ConsoleLog args).

(** [response.ok]: the status is in the range 200-299. *)
Definition response_ok (r : response) : bool :=
  (200 <=? response_status r) && (response_status r <=? 299).

(** [response.json()]: the body text, parsed as JSON. *)
Definition response_json (r : response) : M value :=
  match response_text r with
  | Return text => lift (JSON_parse text)
  | Throw e => throw e
  end.

(** ** Number::toString and JSON.stringify *)

Definition MAX_SAFE_INTEGER : Z := 2 ^ 53 - 1.

Definition digits_of_Z (z : Z) : jsstring :=
  str (NilZero.string_of_int (Z.to_int z)).

(** An integer in the safe range prints as its decimal digits, with a
    minus sign when negative; the host prints every other number. *)
Definition Number_toString (w : world) (q : Q) : jsstring :=
  let r := Qred q in
  if (Qden r =? 1)%positive && (Z.abs (Qnum r) <=? MAX_SAFE_INTEGER)%Z
  then digits_of_Z (Qnum r)
  else number_text w q.

Definition hex_digit (n : N) : N := if n <? 10 then 48 + n else 87 + n.

(** The six-character escape of a code unit, in lower-case hexadecimal. *)
Definition unicode_escape (c : N) : jsstring :=
  str "\u" ++ [hex_digit (c / 4096); hex_digit ((c / 256) mod 16);
               hex_digit ((c / 16) mod 16); hex_digit (c mod 16)].

Definition is_high_surrogate (c : N) : bool := (55296 <=? c) && (c <=? 56319).
Definition is_low_surrogate (c : N) : bool := (56320 <=? c) && (c <=? 57343).

(** The characters of [QuoteJSONString]: the short escapes, the control
    characters and the lone surrogates as unicode escapes, everything
    else as it is. *)
Fixpoint quote_chars (s : jsstring) : jsstring :=
  match s with
  | [] => []
  | c :: s' =>
      if c =? 8 then str "\b" ++ quote_chars s'
      else if c =? 9 then str "\t" ++ quote_chars s'
      else if c =? 10 then str "\n" ++ quote_chars s'
      else if c =? 12 then str "\f" ++ quote_chars s'
      else if c =? 13 then str "\r" ++ quote_chars s'
      else if c =? QUOTE then [BACKSLASH; QUOTE] ++ quote_chars s'
      else if c =? BACKSLASH then [BACKSLASH; BACKSLASH] ++ quote_chars s'
      else if c <? 32 then unicode_escape c ++ quote_chars s'
      else if is_high_surrogate c then
        match s' with
        | d :: s'' =>
            if is_low_surrogate d then c :: d :: quote_chars s''
            else unicode_escape c ++ quote_chars s'
        | [] => unicode_escape c
        end
      else if is_low_surrogate c then unicode_escape c ++ quote_chars s'
      else c :: quote_chars s'
  end.

Definition QuoteJSONString (s : jsstring) : jsstring :=
  QUOTE :: quote_chars s ++ [QUOTE].

(** [Array.prototype.join] on strings. *)
Fixpoint join (sep : jsstring) (parts : list jsstring) : jsstring :=
  match parts with
  | [] => []
  | [p] => p
  | p :: parts' => p ++ sep ++ join sep parts'
  end.

(** [JSON.stringify(v)] without replacer or indentation; [None] is
    [undefined].  An [undefined] element of an array is written as
    [null], a property whose value is [undefined] is left out. *)
Fixpoint stringify (w : world) (v : value) : option jsstring :=
  match v with
  | VUndefined => None
  | VNull => Some (str "null")
  | VBool b => Some (if b then str "true" else str "false")
  | VNum q => Some (Number_toString w q)
  | VStr s => Some (QuoteJSONString s)
  | VArr items =>
      Some ([LBRACKET]
            ++ join [COMMA]
                 (map (fun x => match stringify w x with
                                | Some t => t
                                | None => str "null"
                                end) items)
            ++ [RBRACKET])
  | VObj props =>
      Some ([LBRACE]
            ++ join [COMMA]
                 (flat_map (fun kv => match kv with
                                      | (k, x) =>
                                          match stringify w x with
                                          | Some t =>
                                              [QuoteJSONString k ++ [COLON] ++ t]
                                          | None => []
                                          end
                                      end) props)
            ++ [RBRACE])
  end.

Definition JSON_stringify (v : value) : M (option jsstring) :=
  fun w => (Return (stringify w v), []).

(** String concatenation with a number operand. *)
Definition number_to_string (q : Q) : M jsstring :=
  fun w => (Return (Number_toString w q), []).

(** ** The operations of TextGen.js

    The parameters that the source concatenates into a string have the
    types its JSDoc gives them: [format], [lang] and [question] are
    strings and [numOfCases] is a number.  The parameters that it stores
    in the payload as they are ([code], [prompt], [payload] itself) are
    any value. *)

Definition ENDPOINT : jsstring := str "http://localhost:11434/api/chat".

(** [makeRequest(payload)]: one POST of the serialized payload; a
    response that is not ok is thrown as an error inside the [try], and
    whatever is thrown there is logged and turned into [null]. *)
Definition makeRequest (payload : value) : M value :=
  try_catch
    (body <- JSON_stringify payload ;;
     response <- fetch ENDPOINT
                   (RequestInit (str "POST")
                      [(str "Content-Type", str "application/json")]
                      body) ;;
     if negb (response_ok response)
     then throw (Exn ErrorClass (str "Network response was not ok"))
     else
       data <- response_json response ;;
       ret data)
    (fun error =>
       console_error [ArgValue (VStr (str "Error:")); ArgError error] ;;
       ret VNull).

(** [loadFileToString(filePath)]. *)
Definition loadFileToString (filePath : jsstring) : M value :=
  try_catch
    (fileContents <- fs_readFile filePath (str "utf8") ;;
     ret (VStr fileContents))
    (fun error =>
       console_error
         [ArgValue (VStr (str "Error reading file:")); ArgError error] ;;
       ret VNull).

(** One conversational turn, [{ role, content }]. *)
Definition turn (role : string) (content : value) : value :=
  VObj [(str "role", VStr (str role)); (str "content", content)].

(** The object literal [{ model, messages, stream }]. *)
Definition chat_payload (model : value) (messages : list value)
           (stream : value) : value :=
  VObj [(str "model", model);
        (str "messages", VArr messages);
        (str "stream", stream)].

(** [codeSuggestions(code, format, lang)]. *)
Definition codeSuggestions (code : value) (format lang : jsstring)
  : M value :=
  let payload :=
    chat_payload (VStr (str "codellama"))
      [turn "user"
         (VStr (str "As an assistant, please review the provided "
                ++ lang
                ++ str " code, focusing on "
                ++ format));
       turn "assistant"
         (VStr (str "Hi, please provide the code that you want suggestions for"));
       turn "user" code]
      (VBool false) in
  makeRequest payload.

(** [printCodeSug(code, format, lang)]. *)
Definition printCodeSug (code : value) (format lang : jsstring) : M value :=
  results <- codeSuggestions code format lang ;;
  message <- lift (get_property results (str "message")) ;;
  content <- lift (get_property message (str "content")) ;;
  console_log [ArgValue content] ;;
  ret VUndefined.

(** [text.match(regex)]: only a string has the method. *)
Definition String_match (text : value) (r : regex)
  : M (option match_result) :=
  match text with
  | VStr s => ret (regex_exec r s)
  | VUndefined => throw (cannot_read "undefined" (str "match"))
  | VNull => throw (cannot_read "null" (str "match"))
  | _ => throw (Exn TypeErrorClass (str "text.match is not a function"))
  end.

(** [extractTestArrayFromText(text)].  The condition [match && match[1]]
    holds when there is a match whose capture 1 is a non-empty string. *)
Definition extractTestArrayFromText (text : value) : M value :=
  m <- String_match text test_regex ;;
  match m with
  | Some (MatchResult _ (Some (c :: cs))) =>
      try_catch
        (testArray <- lift (JSON_parse (c :: cs)) ;;
         ret testArray)
        (fun error =>
           console_error
             [ArgValue (VStr (str "Failed to parse the extracted array:"));
              ArgError error] ;;
           ret VNull)
  | _ =>
      console_error [ArgValue (VStr (str "No test array found in the text."))] ;;
      ret VNull
  end.

(** The instruction string of [makeTestCases], [count] being the text of
    [numOfCases]. *)
Definition test_case_prompt (question format count : jsstring) : jsstring :=
  str "Without any comments or context, Generate "
  ++ count
  ++ str " test cases for this question, ("
  ++ question
  ++ str " ), include cases such as edge cases, large cases. The output should strictly be in JSON format, adhering to the template provided: ( "
  ++ format
  ++ str " )" ++ [10]
  ++ str " *** ONLY RETURN CODE <<<< DO NOT number it or anything, simply return code. Make sure to have"
  ++ count
  ++ str "  tests cases and all parameters ***".

(** [makeTestCases(question, format, numOfCases)]. *)
Definition makeTestCases (question format : jsstring) (numOfCases : Q)
  : M value :=
  count <- number_to_string numOfCases ;;
  let payload :=
    chat_payload (VStr (str "codellama"))
      [turn "user" (VStr (test_case_prompt question format count))]
      (VBool false) in
  makeRequest payload.

(** [printTestCases(question, format, numOfCases)]. *)
Definition printTestCases (question format : jsstring) (numOfCases : Q)
  : M value :=
  results <- makeTestCases question format numOfCases ;;
  message <- lift (get_property results (str "message")) ;;
  content <- lift (get_property message (str "content")) ;;
  tests <- extractTestArrayFromText content ;;
  console_log [ArgValue results] ;;
  console_log [ArgValue tests] ;;
  ret VUndefined.

(** [print(content)]. *)
Definition print (content : value) : M value :=
  console_log [ArgValue content] ;;
  ret VUndefined.

(** [textGen(prompt)]. *)
Definition textGen (prompt : value) : M value :=
  let payload :=
    chat_payload (VStr (str "codellama"))
      [turn "user" prompt]
      (VBool false) in
  makeRequest payload.

(** ** Vocabulary of the statements *)

(** The [init] object of the POST that [makeRequest] sends with a body. *)
Definition json_post (body : option jsstring) : request_init :=
  RequestInit (str "POST") [(str "Content-Type", str "application/json")] body.

(** The diagnostic entry of [makeRequest] for the error [e]. *)
Definition request_diagnostic (e : exn) : event :=
  ConsoleError [ArgValue (VStr (str "Error:")); ArgError e].

(** The error that [makeRequest] catches when the transport fails:
    the rejection of [fetch], or the error it throws itself for a
    response that is not ok. *)
Definition transport_error (w : world) (payload : value) : option exn :=
  match fetch_oracle w ENDPOINT (json_post (stringify w payload)) with
  | Throw e => Some e
  | Return r =>
      if response_ok r then None
      else Some (Exn ErrorClass (str "Network response was not ok"))
  end.

(** The payload of a conversation with the fixed model and no streaming. *)
Definition codellama_payload (messages : list value) : value :=
  chat_payload (VStr (str "codellama")) messages (VBool false).

(** A world whose network refuses every connection and whose file system
    is empty. *)
Definition offline_world : world :=
  World (fun _ _ => Throw (Exn HostErrorClass (str "connect ECONNREFUSED")))
        (fun _ _ => Throw (Exn HostErrorClass (str "ENOENT: no such file or directory")))
        (fun _ => str "NaN").

(** The longest prefix of [s] inside the class [f], and what follows. *)
Fixpoint take_while (f : N -> bool) (s : jsstring) : jsstring :=
  match s with
  | c :: s' => if f c then c :: take_while f s' else []
  | [] => []
  end.

Fixpoint drop_while (f : N -> bool) (s : jsstring) : jsstring :=
  match s with
  | c :: s' => if f c then drop_while f s' else s
  | [] => []
  end.

(** What the pattern looks for, in words: at index [i] of [text] stand
    the quoted key test, whitespace, a colon, whitespace, and a bracketed
    run. *)
Definition test_array_at (text : jsstring) (i : nat) : Prop :=
  exists ws1 ws2 body rest,
    skipn i text =
      quoted "test" ++ ws1 ++ COLON :: ws2
        ++ LBRACKET :: body ++ RBRACKET :: rest
    /\ forallb is_regex_space ws1 = true
    /\ forallb is_regex_space ws2 = true.

(** The two diagnostics of the extractor. *)
Definition no_array_diagnostic : event :=
  ConsoleError [ArgValue (VStr (str "No test array found in the text."))].

Definition parse_failure_diagnostic (e : exn) : event :=
  ConsoleError
    [ArgValue (VStr (str "Failed to parse the extracted array:"));
     ArgError e].

(** The texts and arrays of the extraction examples. *)
Definition flat_example : jsstring := quoted "test" ++ str ": [1, 2, 3]".
Definition flat_array : value := VArr [VNum 1; VNum 2; VNum 3].

Definition nested_example : jsstring :=
  quoted "test" ++ str ": [[1,2], [3,4]]".
(** The array of the arrays of 1, 2 and of 3, 4. *)
Definition nested_array : value :=
  VArr [VArr [VNum 1; VNum 2]; VArr [VNum 3; VNum 4]].

(** Every closing bracket of [t] is its last code unit. *)
Definition closes_last (t : jsstring) : Prop :=
  forall pre rest, t = pre ++ RBRACKET :: rest -> rest = [].

(** A text where an empty array under the same key comes first. *)
Definition shadowed_example : jsstring :=
  quoted "test" ++ str ": [] " ++ flat_example.

(** [rest] is what remains of [s] after a prefix. *)
Definition suffix (rest s : jsstring) : Prop := exists pre, s = pre ++ rest.

(** ** Vocabulary of the further properties *)

(** A world whose server answers every request with the status [status]
    and the body [text], and whose file system is empty. *)
Definition replying_world (status : N) (text : jsstring) : world :=
  World (fun _ _ => Return (Response status (Return text)))
        (fun _ _ => Throw (Exn HostErrorClass (str "ENOENT: no such file or directory")))
        (fun _ => str "NaN").


(** No key occurs twice among the properties. *)
Fixpoint distinct_keys (props : list (jsstring * value)) : bool :=
  match props with
  | [] => true
  | (k, _) :: props' =>
      if in_dec (list_eq_dec N.eq_dec) k (map fst props')
      then false
      else distinct_keys props'
  end.

(** The values that JSON carries as they are: [null], booleans, strings,
    and the arrays and objects made of them, no object having a key
    twice.  ([undefined] is dropped or replaced by [JSON.stringify], and
    the text of a number is left to the host.) *)
Fixpoint wire_safe (v : value) : bool :=
  match v with
  | VNull => true
  | VBool _ => true
  | VStr _ => true
  | VUndefined => false
  | VNum _ => false
  | VArr items => forallb wire_safe items
  | VObj props =>
      distinct_keys props
      && forallb (fun kv => match kv with (_, x) => wire_safe x end) props
  end.

(** The text that [JSON.stringify] writes for an element of an array. *)
Definition json_text (w : world) (v : value) : jsstring :=
  match stringify w v with
  | Some t => t
  | None => str "null"
  end.

(** The text of a property whose value is written. *)
Definition member_text (w : world) (kv : jsstring * value) : jsstring :=
  QuoteJSONString (fst kv) ++ [COLON] ++ json_text w (snd kv).

Unset Implicit Arguments.

(** * Properties *)

(** ** The dispatcher *)

(** [makeRequest], case by case. *)
Lemma makeRequest_cases (payload : value) (w : world) :
  let init := json_post (stringify w payload) in
  makeRequest payload w =
  match fetch_oracle w ENDPOINT init with
  | Throw e => (Return VNull, [Fetch ENDPOINT init; request_diagnostic e])
  | Return r =>
      if response_ok r then
        match response_text r with
        | Throw e => (Return VNull, [Fetch ENDPOINT init; request_diagnostic e])
        | Return text =>
            match JSON_parse text with
            | Return data => (Return data, [Fetch ENDPOINT init])
            | Throw e =>
                (Return VNull, [Fetch ENDPOINT init; request_diagnostic e])
            end
        end
      else (Return VNull,
            [Fetch ENDPOINT init;
             request_diagnostic
               (Exn ErrorClass (str "Network response was not ok"))])
  end.
Proof.
  cbv zeta.
  unfold makeRequest, try_catch, bind, JSON_stringify, fetch, json_post.
  destruct (fetch_oracle w ENDPOINT _) as [r | e]; [ | reflexivity ].
  destruct (response_ok r); [ | reflexivity ].
  unfold response_json.
  destruct (response_text r) as [text | e]; [ | reflexivity ].
  unfold lift. destruct (JSON_parse text); reflexivity.
Qed.

(** [makeRequest] never throws, whatever the world does. *)
Lemma makeRequest_returns (payload : value) (w : world) :
  exists v, outcome (makeRequest payload) w = Return v.
Proof.
  unfold outcome. rewrite makeRequest_cases. cbv zeta.
  destruct (fetch_oracle w ENDPOINT _) as [r | e]; [ | eexists; reflexivity ].
  destruct (response_ok r); [ | eexists; reflexivity ].
  destruct (response_text r) as [text | e]; [ | eexists; reflexivity ].
  destruct (JSON_parse text); eexists; reflexivity.
Qed.

(** [makeRequest] performs exactly one network call, the POST of the
    serialized payload to the endpoint. *)
Lemma makeRequest_fetches (payload : value) (w : world) :
  fetches (trace (makeRequest payload) w) =
  [Fetch ENDPOINT (json_post (stringify w payload))].
Proof.
  unfold trace. rewrite makeRequest_cases. cbv zeta.
  destruct (fetch_oracle w ENDPOINT _) as [r | e]; [ | reflexivity ].
  destruct (response_ok r); [ | reflexivity ].
  destruct (response_text r) as [text | e]; [ | reflexivity ].
  destruct (JSON_parse text); reflexivity.
Qed.

(** Only [undefined] has no serialization. *)
Lemma stringify_undefined (w : world) (v : value) :
  stringify w v = None <-> v = VUndefined.
Proof.
  split.
  - destruct v; simpl; intros H; try discriminate H; reflexivity.
  - intros ->. reflexivity.
Qed.

(** C1. For every payload, in every world, [makeRequest] issues exactly
    one HTTP request: a POST to http://localhost:11434/api/chat, with the
    JSON content type, whose body is [JSON.stringify(payload)]; and every
    payload but [undefined], so every payload object, has such a
    serialization. *)
Theorem makeRequest_posts_payload_once :
  forall (payload : value) (w : world),
    fetches (trace (makeRequest payload) w) =
      [Fetch (str "http://localhost:11434/api/chat")
         (RequestInit (str "POST")
            [(str "Content-Type", str "application/json")]
            (stringify w payload))]
    /\ (stringify w payload = None <-> payload = VUndefined).
Proof.
  intros payload w. split.
  - apply makeRequest_fetches.
  - apply stringify_undefined.
Qed.

(** C2. Whenever the call to the endpoint fails, by a rejection of
    [fetch] or by a status outside 200-299, [makeRequest] returns [null]
    normally (it does not throw) and its trace holds exactly one
    diagnostic entry, the one for the error caught. *)
Theorem makeRequest_failure_is_null_and_logged :
  forall (payload : value) (w : world) (e : exn),
    transport_error w payload = Some e ->
    outcome (makeRequest payload) w = Return VNull
    /\ diagnostics (trace (makeRequest payload) w) = [request_diagnostic e].
Proof.
  intros payload w e H.
  unfold outcome, trace. rewrite makeRequest_cases. cbv zeta.
  unfold transport_error in H.
  destruct (fetch_oracle w ENDPOINT _) as [r | e'].
  - destruct (response_ok r); [ discriminate H | ].
    injection H as <-. split; reflexivity.
  - injection H as <-. split; reflexivity.
Qed.

Lemma makeRequest_failure_is_null_and_logged_witness :
  transport_error offline_world (codellama_payload []) =
    Some (Exn HostErrorClass (str "connect ECONNREFUSED"))
  /\ outcome (makeRequest (codellama_payload [])) offline_world = Return VNull
  /\ diagnostics (trace (makeRequest (codellama_payload [])) offline_world) =
       [request_diagnostic (Exn HostErrorClass (str "connect ECONNREFUSED"))].
Proof.
  split; [ reflexivity | ].
  apply (makeRequest_failure_is_null_and_logged (codellama_payload [])
           offline_world).
  reflexivity.
Defined.

(** ** The file loader *)

(** C6. [loadFileToString] reads the file once, as UTF-8.  When the read
    gives the text of the file, it returns exactly that text and logs
    nothing; when the read fails (the path does not exist, or any other
    error), it returns [null] normally, with one diagnostic entry. *)
Theorem loadFileToString_contents_or_null :
  forall (filePath : jsstring) (w : world),
    match readFile_oracle w filePath (str "utf8") with
    | Return contents =>
        loadFileToString filePath w =
          (Return (VStr contents), [ReadFile filePath (str "utf8")])
    | Throw e =>
        loadFileToString filePath w =
          (Return VNull,
           [ReadFile filePath (str "utf8");
            ConsoleError
              [ArgValue (VStr (str "Error reading file:")); ArgError e]])
    end.
Proof.
  intros filePath w.
  unfold loadFileToString, try_catch, bind, fs_readFile.
  destruct (readFile_oracle w filePath (str "utf8")); reflexivity.
Qed.

(** ** The prompt builders *)

Lemma bind_pure {A B} (a : A) (f : A -> M B) (w : world) :
  bind (fun _ => (Return a, [])) f w = f a w.
Proof. unfold bind. destruct (f a w); reflexivity. Qed.

Lemma includes_here (x rest : jsstring) : includes (x ++ rest) x.
Proof. exists [], rest. reflexivity. Qed.

Lemma includes_app_r (a t x : jsstring) :
  includes t x -> includes (a ++ t) x.
Proof.
  intros (before & after & ->).
  exists (a ++ before), after. now rewrite app_assoc.
Qed.

(** The text of the number ten. *)
Lemma Number_toString_ten (w : world) : Number_toString w 10 = str "10".
Proof. reflexivity. Qed.

Lemma makeTestCases_request (question format : jsstring) (n : Q) (w : world) :
  makeTestCases question format n w =
  makeRequest
    (codellama_payload
       [turn "user"
          (VStr (test_case_prompt question format (Number_toString w n)))]) w.
Proof. unfold makeTestCases, number_to_string. apply bind_pure. Qed.

(** C7. For every question Q and format template F, [makeTestCases(Q, F,
    10)] is the dispatcher called with a payload whose [messages] is one
    turn with role user, and the content of that turn contains Q, F and
    the text 10. *)
Theorem makeTestCases_single_user_turn :
  forall (Q F : jsstring) (w : world),
  exists payload content,
    makeTestCases Q F 10 w = makeRequest payload w
    /\ get_property payload (str "messages") =
         Return (VArr [VObj [(str "role", VStr (str "user"));
                             (str "content", VStr content)]])
    /\ includes content Q
    /\ includes content F
    /\ includes content (str "10").
Proof.
  intros Q F w.
  exists (codellama_payload
            [turn "user" (VStr (test_case_prompt Q F (str "10")))]),
         (test_case_prompt Q F (str "10")).
  split; [ | split; [ reflexivity | ] ].
  - rewrite makeTestCases_request, Number_toString_ten. reflexivity.
  - unfold test_case_prompt. repeat split.
    + do 3 apply includes_app_r. apply includes_here.
    + do 5 apply includes_app_r. apply includes_here.
    + apply includes_app_r. apply includes_here.
Qed.

(** C10. Each of the three request-sending operations is the dispatcher
    called with a payload whose [model] is the string codellama and whose
    [stream] is [false], for all inputs. *)
Theorem payloads_use_codellama_without_streaming :
  forall (w : world),
    (forall code format lang, exists payload,
        codeSuggestions code format lang w = makeRequest payload w
        /\ get_property payload (str "model") = Return (VStr (str "codellama"))
        /\ get_property payload (str "stream") = Return (VBool false))
    /\ (forall question format numOfCases, exists payload,
        makeTestCases question format numOfCases w = makeRequest payload w
        /\ get_property payload (str "model") = Return (VStr (str "codellama"))
        /\ get_property payload (str "stream") = Return (VBool false))
    /\ (forall prompt, exists payload,
        textGen prompt w = makeRequest payload w
        /\ get_property payload (str "model") = Return (VStr (str "codellama"))
        /\ get_property payload (str "stream") = Return (VBool false)).
Proof.
  intros w. repeat split.
  - intros code format lang. eexists. repeat split.
  - intros question format n. eexists. split.
    + apply makeTestCases_request.
    + split; reflexivity.
  - intros prompt. eexists. repeat split.
Qed.

(** ** The printing call sites *)

(** C8. In an execution where the dispatcher gives [null] back, both
    printing call sites read [message] from that [null] unchecked: each
    of them throws a TypeError, which nothing catches, and prints
    nothing (its trace is the trace of the request). *)
Theorem print_sites_fault_on_null :
  forall (w : world) (code : value) (format lang question tformat : jsstring)
         (numOfCases : Q),
    outcome (codeSuggestions code format lang) w = Return VNull ->
    outcome (makeTestCases question tformat numOfCases) w = Return VNull ->
    (exists msg,
        printCodeSug code format lang w =
          (Throw (Exn TypeErrorClass msg),
           trace (codeSuggestions code format lang) w))
    /\ (exists msg,
        printTestCases question tformat numOfCases w =
          (Throw (Exn TypeErrorClass msg),
           trace (makeTestCases question tformat numOfCases) w)).
Proof.
  intros w code format lang question tformat n Hc Ht.
  unfold outcome, trace in *. split.
  - unfold printCodeSug, bind at 1.
    destruct (codeSuggestions code format lang w) as [r t].
    simpl in Hc. subst r. unfold bind, lift. simpl.
    rewrite app_nil_r. eexists. reflexivity.
  - unfold printTestCases, bind at 1.
    destruct (makeTestCases question tformat n w) as [r t].
    simpl in Ht. subst r. unfold bind, lift. simpl.
    rewrite app_nil_r. eexists. reflexivity.
Qed.

Lemma print_sites_fault_on_null_witness :
  outcome (codeSuggestions (VStr (str "x = 1")) (str "Bug Identification")
             (str "Javascript")) offline_world = Return VNull
  /\ outcome (makeTestCases (str "Q") (str "F") 10) offline_world = Return VNull
  /\ (exists msg,
        printCodeSug (VStr (str "x = 1")) (str "Bug Identification")
          (str "Javascript") offline_world =
          (Throw (Exn TypeErrorClass msg),
           trace (codeSuggestions (VStr (str "x = 1"))
                    (str "Bug Identification") (str "Javascript"))
             offline_world))
  /\ (exists msg,
        printTestCases (str "Q") (str "F") 10 offline_world =
          (Throw (Exn TypeErrorClass msg),
           trace (makeTestCases (str "Q") (str "F") 10) offline_world)).
Proof.
  split; [ reflexivity | split; [ reflexivity | ] ].
  apply (print_sites_fault_on_null offline_world (VStr (str "x = 1"))
           (str "Bug Identification") (str "Javascript")
           (str "Q") (str "F") 10); reflexivity.
Defined.

(** ** The pattern *)

Section MatcherFacts.
Variable R : Type.

(** A run of pattern characters is a prefix test. *)
Lemma rmatch_Chars (cs : jsstring) (r : regex) (s : jsstring)
      (cap : option jsstring)
      (k : jsstring -> option jsstring -> option R) :
  rmatch (Chars cs r) s cap k =
  match strip_prefix cs s with
  | Some s' => rmatch r s' cap k
  | None => None
  end.
Proof.
  revert s. induction cs as [ | c cs IH ]; intros s; [ reflexivity | ].
  destruct s as [ | x s ]; [ reflexivity | ].
  cbn [Chars rmatch strip_prefix]. rewrite (N.eqb_sym c x).
  destruct (x =? c); [ apply IH | reflexivity ].
Qed.

(** When what follows a star cannot start inside the class, the star
    takes the longest run and never gives anything back. *)
Lemma star_loop_longest (cls : N -> bool) (k : jsstring -> option R)
      (s : jsstring) :
  (forall c s', cls c = true -> k (c :: s') = None) ->
  star_loop cls k s = k (drop_while cls s).
Proof.
  intros Hk. induction s as [ | c s IH ]; [ reflexivity | ].
  cbn [star_loop drop_while].
  destruct (cls c) eqn:Hc; [ | reflexivity ].
  rewrite IH, (Hk c s Hc). now destruct (k (drop_while cls s)).
Qed.
End MatcherFacts.

Lemma space_is_not (c d : N) :
  is_regex_space d = false -> is_regex_space c = true -> (c =? d) = false.
Proof.
  intros Hd Hc. destruct (N.eqb_spec c d) as [-> | ]; [ | reflexivity ].
  congruence.
Qed.

(** One attempt of the pattern, without backtracking. *)
Lemma match_here_test_regex (s : jsstring) :
  match_here test_regex s =
  match strip_prefix (quoted "test") s with
  | None => None
  | Some s1 =>
      match drop_while is_regex_space s1 with
      | c :: s2 =>
          if c =? COLON then
            match drop_while is_regex_space s2 with
            | b :: s3 =>
                if b =? LBRACKET then
                  match drop_while not_rbracket s3 with
                  | e :: s4 =>
                      if e =? RBRACKET
                      then Some (MatchResult
                                   (firstn (length s - length s4) s)
                                   (Some (firstn (length (b :: s3) - length s4)
                                            (b :: s3))))
                      else None
                  | [] => None
                  end
                else None
            | [] => None
            end
          else None
      | [] => None
      end
  end.
Proof.
  unfold match_here, test_regex. rewrite rmatch_Chars.
  destruct (strip_prefix (quoted "test") s) as [ s1 | ]; [ | reflexivity ].
  cbn [rmatch]. rewrite star_loop_longest.
  2:{ intros c s' Hc. now rewrite (space_is_not c COLON eq_refl Hc). }
  destruct (drop_while is_regex_space s1) as [ | c s2 ]; [ reflexivity | ].
  destruct (c =? COLON); [ | reflexivity ].
  rewrite star_loop_longest.
  2:{ intros c' s' Hc. now rewrite (space_is_not c' LBRACKET eq_refl Hc). }
  destruct (drop_while is_regex_space s2) as [ | b s3 ]; [ reflexivity | ].
  destruct (b =? LBRACKET); [ | reflexivity ].
  rewrite star_loop_longest.
  2:{ intros c' s' Hc. unfold not_rbracket in Hc.
      now destruct (c' =? RBRACKET). }
  destruct (drop_while not_rbracket s3) as [ | e s4 ]; [ reflexivity | ].
  reflexivity.
Qed.

(** *** Prefixes and runs *)

Lemma strip_prefix_Some (p s s' : jsstring) :
  strip_prefix p s = Some s' <-> s = p ++ s'.
Proof.
  revert s. induction p as [ | a p IH ]; intros s; simpl.
  - split; [ now intros [= ->] | now intros -> ].
  - destruct s as [ | b s ]; [ split; discriminate | ].
    destruct (N.eqb_spec a b) as [ -> | Hab ].
    + rewrite IH. split; [ now intros -> | now intros [= ->] ].
    + split; [ discriminate | intros [= <- _]; now elim Hab ].
Qed.

Lemma strip_prefix_app (p s' : jsstring) : strip_prefix p (p ++ s') = Some s'.
Proof. now apply strip_prefix_Some. Qed.

Lemma take_drop_while (f : N -> bool) (s : jsstring) :
  s = take_while f s ++ drop_while f s.
Proof.
  induction s as [ | c s IH ]; [ reflexivity | ].
  simpl. destruct (f c); [ simpl; now rewrite <- IH | reflexivity ].
Qed.

Lemma take_while_all (f : N -> bool) (s : jsstring) :
  forallb f (take_while f s) = true.
Proof.
  induction s as [ | c s IH ]; [ reflexivity | ].
  simpl. destruct (f c) eqn:Hc; [ simpl; now rewrite Hc | reflexivity ].
Qed.

Lemma drop_while_head (f : N -> bool) (s : jsstring) (c : N) (r : jsstring) :
  drop_while f s = c :: r -> f c = false.
Proof.
  induction s as [ | x s IH ]; [ discriminate | ].
  simpl. destruct (f x) eqn:Hx; [ exact IH | ].
  now intros [= <- _].
Qed.

Lemma drop_while_app (f : N -> bool) (ws : jsstring) (c : N) (r : jsstring) :
  forallb f ws = true -> f c = false ->
  drop_while f (ws ++ c :: r) = c :: r.
Proof.
  intros Hws Hc. induction ws as [ | x ws IH ]; simpl.
  - now rewrite Hc.
  - simpl in Hws. apply andb_true_iff in Hws as [-> Hws]. now apply IH.
Qed.

Lemma firstn_prefix (a b : jsstring) (n : nat) :
  n = length a -> firstn n (a ++ b) = a.
Proof.
  intros ->. rewrite firstn_app, Nat.sub_diag, firstn_all.
  simpl. apply app_nil_r.
Qed.

Lemma not_rbracket_false (c : N) : not_rbracket c = false -> c = RBRACKET.
Proof.
  unfold not_rbracket. destruct (N.eqb_spec c RBRACKET); [ trivial | discriminate ].
Qed.

(** A bracketed run closes at its first closing bracket. *)
Lemma first_rbracket (body rest : jsstring) :
  exists b1 rest',
    body ++ RBRACKET :: rest = b1 ++ RBRACKET :: rest'
    /\ forallb not_rbracket b1 = true.
Proof.
  induction body as [ | x body (b1 & rest' & E & Hb) ].
  - exists [], rest. split; reflexivity.
  - destruct (not_rbracket x) eqn:Hx.
    + exists (x :: b1), rest'. simpl. rewrite E, Hx. split; [ reflexivity | exact Hb ].
    + apply not_rbracket_false in Hx. subst x.
      exists [], (body ++ RBRACKET :: rest). split; reflexivity.
Qed.

(** *** One attempt *)

(** A successful attempt reads the quoted key, whitespace, a colon,
    whitespace, and captures a bracketed run with no closing bracket
    inside. *)
Lemma match_here_sound (s : jsstring) (m : match_result) :
  match_here test_regex s = Some m ->
  exists ws1 ws2 body rest,
    s = quoted "test" ++ ws1 ++ COLON :: ws2
          ++ LBRACKET :: body ++ RBRACKET :: rest
    /\ forallb is_regex_space ws1 = true
    /\ forallb is_regex_space ws2 = true
    /\ forallb not_rbracket body = true
    /\ match_1 m = Some (LBRACKET :: body ++ [RBRACKET]).
Proof.
  rewrite match_here_test_regex.
  destruct (strip_prefix (quoted "test") s) as [ s1 | ] eqn:E0; [ | discriminate ].
  apply strip_prefix_Some in E0.
  destruct (drop_while is_regex_space s1) as [ | c s2 ] eqn:E1; [ discriminate | ].
  destruct (N.eqb_spec c COLON) as [ -> | ]; [ | discriminate ].
  destruct (drop_while is_regex_space s2) as [ | b s3 ] eqn:E2; [ discriminate | ].
  destruct (N.eqb_spec b LBRACKET) as [ -> | ]; [ | discriminate ].
  destruct (drop_while not_rbracket s3) as [ | e s4 ] eqn:E3; [ discriminate | ].
  destruct (N.eqb_spec e RBRACKET) as [ -> | ]; [ | discriminate ].
  intros [= <-].
  exists (take_while is_regex_space s1), (take_while is_regex_space s2),
         (take_while not_rbracket s3), s4.
  pose proof (take_drop_while is_regex_space s1) as D1.
  pose proof (take_drop_while is_regex_space s2) as D2.
  pose proof (take_drop_while not_rbracket s3) as D3.
  rewrite E1 in D1. rewrite E2 in D2. rewrite E3 in D3.
  repeat split; try apply take_while_all.
  - rewrite E0. f_equal. rewrite D1 at 1. f_equal. f_equal.
    rewrite D2 at 1. f_equal. f_equal. exact D3.
  - unfold match_1. f_equal.
    assert (E : LBRACKET :: s3 =
                (LBRACKET :: take_while not_rbracket s3 ++ [RBRACKET]) ++ s4).
    { rewrite D3 at 1. simpl. now rewrite <- app_assoc. }
    rewrite E. apply firstn_prefix.
    change (S (length s3) - length s4 =
            length (LBRACKET :: take_while not_rbracket s3 ++ [RBRACKET]))%nat.
    apply (f_equal (@length N)) in D3. rewrite length_app in D3.
    cbn [length] in *. rewrite length_app. cbn [length]. lia.
Qed.

(** Where the key, whitespace, a colon, whitespace and a bracketed run
    without inner closing bracket stand, the attempt succeeds and
    captures that run. *)
Lemma match_here_complete (ws1 ws2 body rest : jsstring) :
  forallb is_regex_space ws1 = true ->
  forallb is_regex_space ws2 = true ->
  forallb not_rbracket body = true ->
  exists whole,
    match_here test_regex
      (quoted "test" ++ ws1 ++ COLON :: ws2
         ++ LBRACKET :: body ++ RBRACKET :: rest)
    = Some (MatchResult whole (Some (LBRACKET :: body ++ [RBRACKET]))).
Proof.
  intros H1 H2 Hb. rewrite match_here_test_regex.
  rewrite strip_prefix_app.
  rewrite (drop_while_app is_regex_space ws1 COLON _ H1 eq_refl), N.eqb_refl.
  rewrite (drop_while_app is_regex_space ws2 LBRACKET _ H2 eq_refl), N.eqb_refl.
  rewrite (drop_while_app not_rbracket body RBRACKET _ Hb eq_refl), N.eqb_refl.
  eexists. f_equal. f_equal. f_equal.
  change (LBRACKET :: body ++ RBRACKET :: rest)
    with ((LBRACKET :: body) ++ RBRACKET :: rest).
  replace ((LBRACKET :: body) ++ RBRACKET :: rest)
    with ((LBRACKET :: body ++ [RBRACKET]) ++ rest)
    by (simpl; now rewrite <- app_assoc).
  apply firstn_prefix. rewrite length_app. lia.
Qed.

(** An attempt succeeds exactly where the pattern stands, in words. *)
Lemma match_here_iff (text : jsstring) (i : nat) :
  match_here test_regex (skipn i text) <> None <-> test_array_at text i.
Proof.
  split.
  - destruct (match_here test_regex (skipn i text)) as [ m | ] eqn:E;
      [ intros _ | congruence ].
    apply match_here_sound in E as (ws1 & ws2 & body & rest & E & H1 & H2 & _).
    exists ws1, ws2, body, rest. auto.
  - intros (ws1 & ws2 & body & rest & E & H1 & H2).
    destruct (first_rbracket body rest) as (b1 & rest' & Eb & Hb).
    rewrite E, Eb.
    destruct (match_here_complete ws1 ws2 b1 rest' H1 H2 Hb) as (whole & ->).
    discriminate.
Qed.

(** *** The search *)

Lemma regex_exec_eq (r : regex) (s : jsstring) :
  regex_exec r s =
  match match_here r s with
  | Some m => Some m
  | None => match s with [] => None | _ :: s' => regex_exec r s' end
  end.
Proof. destruct s; reflexivity. Qed.

(** The start indexes where every attempt fails are passed over. *)
Lemma regex_exec_skip (r : regex) (p s : jsstring) :
  (forall i, (i < length p)%nat -> match_here r (skipn i (p ++ s)) = None) ->
  regex_exec r (p ++ s) = regex_exec r s.
Proof.
  induction p as [ | x p IH ]; intros H; [ reflexivity | ].
  cbn [app]. rewrite regex_exec_eq.
  pose proof (H O ltac:(simpl; lia)) as H0. simpl in H0. rewrite H0.
  apply IH. intros i Hi. apply (H (S i)). simpl. lia.
Qed.

Lemma regex_exec_None (r : regex) (s : jsstring) :
  (forall i, match_here r (skipn i s) = None) -> regex_exec r s = None.
Proof.
  induction s as [ | x s IH ]; intros H; rewrite regex_exec_eq;
    pose proof (H O) as H0; simpl in H0; rewrite H0.
  - reflexivity.
  - apply IH. intros i. apply (H (S i)).
Qed.

(** When the search finds nothing, every attempt fails. *)
Lemma regex_exec_None_all (r : regex) (s : jsstring) :
  regex_exec r s = None -> forall i, match_here r (skipn i s) = None.
Proof.
  induction s as [ | x s IH ]; rewrite regex_exec_eq.
  - destruct (match_here r []) eqn:E; [ discriminate | ].
    intros _ i. now rewrite skipn_nil.
  - destruct (match_here r (x :: s)) eqn:E; [ discriminate | ].
    intros H [ | i ]; [ exact E | now apply IH ].
Qed.

(** A match found is a successful attempt at some index. *)
Lemma regex_exec_Some (r : regex) (s : jsstring) (m : match_result) :
  regex_exec r s = Some m ->
  exists i, match_here r (skipn i s) = Some m.
Proof.
  induction s as [ | x s IH ]; rewrite regex_exec_eq.
  - destruct (match_here r []) eqn:E; [ | discriminate ].
    intros [= <-]. now exists O.
  - destruct (match_here r (x :: s)) eqn:E.
    + intros [= <-]. now exists O.
    + intros H. destruct (IH H) as (i & Hi). now exists (S i).
Qed.

(** Where some attempt succeeds, the search finds a match. *)
Lemma regex_exec_finds (r : regex) (s : jsstring) (i : nat) :
  match_here r (skipn i s) <> None -> regex_exec r s <> None.
Proof.
  revert i. induction s as [ | x s IH ]; intros i H; rewrite regex_exec_eq.
  - rewrite skipn_nil in H. now destruct (match_here r []).
  - destruct (match_here r (x :: s)) eqn:E; [ discriminate | ].
    destruct i as [ | i ]; [ simpl in H; congruence | ].
    now apply (IH i).
Qed.

(** ** The extractor *)

(** [extractTestArrayFromText] on a string, case by case. *)
Lemma extract_cases (text : jsstring) (w : world) :
  extractTestArrayFromText (VStr text) w =
  match regex_exec test_regex text with
  | Some (MatchResult _ (Some (c :: cs))) =>
      match JSON_parse (c :: cs) with
      | Return testArray => (Return testArray, [])
      | Throw e => (Return VNull, [parse_failure_diagnostic e])
      end
  | _ => (Return VNull, [no_array_diagnostic])
  end.
Proof.
  unfold extractTestArrayFromText, String_match, ret.
  rewrite bind_pure.
  destruct (regex_exec test_regex text) as [ [ whole [ [ | c cs ] | ] ] | ];
    try reflexivity.
  unfold try_catch, bind, lift.
  destruct (JSON_parse (c :: cs)); reflexivity.
Qed.

(** C4. For every text in which the quoted key test, followed by
    whitespace, a colon, whitespace and a bracketed run, stands nowhere,
    [extractTestArrayFromText] returns [null] normally and logs one
    diagnostic, the one that says that no test array was found. *)
Theorem extract_without_test_array :
  forall (text : jsstring) (w : world),
    (forall i, ~ test_array_at text i) ->
    extractTestArrayFromText (VStr text) w =
      (Return VNull,
       [ConsoleError
          [ArgValue (VStr (str "No test array found in the text."))]]).
Proof.
  intros text w H. rewrite extract_cases.
  rewrite regex_exec_None; [ reflexivity | ].
  intros i. destruct (match_here test_regex (skipn i text)) eqn:E; [ | reflexivity ].
  elim (H i). apply match_here_iff. congruence.
Qed.

Lemma extract_without_test_array_witness :
  (forall i, ~ test_array_at (str "I cannot help with that.") i)
  /\ extractTestArrayFromText (VStr (str "I cannot help with that."))
       offline_world =
       (Return VNull,
        [ConsoleError
           [ArgValue (VStr (str "No test array found in the text."))]]).
Proof.
  assert (H : forall i, ~ test_array_at (str "I cannot help with that.") i).
  { intros i Hat. apply match_here_iff in Hat. apply Hat.
    apply regex_exec_None_all. vm_compute. reflexivity. }
  split; [ exact H | ].
  apply (extract_without_test_array (str "I cannot help with that.")
           offline_world H).
Defined.

(** C3, as stated, fails: the search stops at the first place where the
    pattern stands, so an earlier array under the same key is the one
    returned. *)
Lemma extract_flat_example_shadowed :
  includes shadowed_example flat_example
  /\ extractTestArrayFromText (VStr shadowed_example) offline_world =
       (Return (VArr []), [])
  /\ VArr [] <> flat_array.
Proof.
  split; [ | split ].
  - exists (quoted "test" ++ str ": [] "), []. reflexivity.
  - vm_compute. reflexivity.
  - discriminate.
Qed.

(** C3, amended. For every text that contains the quoted key test, a
    colon, a space and the array of 1, 2 and 3, and in which the pattern
    stands at no earlier index, [extractTestArrayFromText] returns the
    array [1, 2, 3] and logs nothing. *)
Theorem extract_flat_example_first :
  forall (before after : jsstring) (w : world),
    (forall i, (i < length before)%nat ->
               ~ test_array_at (before ++ flat_example ++ after) i) ->
    extractTestArrayFromText (VStr (before ++ flat_example ++ after)) w =
      (Return (VArr [VNum 1; VNum 2; VNum 3]), []).
Proof.
  intros before after w H. rewrite extract_cases.
  rewrite regex_exec_skip.
  2:{ intros i Hi.
      destruct (match_here test_regex
                  (skipn i (before ++ flat_example ++ after))) eqn:E;
        [ | reflexivity ].
      elim (H i Hi). apply match_here_iff. congruence. }
  rewrite regex_exec_eq.
  change (flat_example ++ after)
    with (quoted "test" ++ [] ++ COLON :: [32]
            ++ LBRACKET :: str "1, 2, 3" ++ RBRACKET :: after).
  destruct (match_here_complete [] [32] (str "1, 2, 3") after
              eq_refl eq_refl eq_refl) as (whole & ->).
  assert (P : JSON_parse (LBRACKET :: str "1, 2, 3" ++ [RBRACKET]) =
              Return (VArr [VNum 1; VNum 2; VNum 3]))
    by (vm_compute; reflexivity).
  cbv beta iota. rewrite P. reflexivity.
Qed.

Lemma extract_flat_example_first_witness :
  (forall i, (i < length (str "reply: "))%nat ->
             ~ test_array_at (str "reply: " ++ flat_example ++ str " done") i)
  /\ extractTestArrayFromText
       (VStr (str "reply: " ++ flat_example ++ str " done")) offline_world =
       (Return (VArr [VNum 1; VNum 2; VNum 3]), []).
Proof.
  assert (H : forall i, (i < length (str "reply: "))%nat ->
                ~ test_array_at
                    (str "reply: " ++ flat_example ++ str " done") i).
  { intros i Hi Hat. apply match_here_iff in Hat. apply Hat.
    do 7 (destruct i as [ | i ]; [ vm_compute; reflexivity | ]).
    vm_compute in Hi. lia. }
  split; [ exact H | ].
  apply (extract_flat_example_first (str "reply: ") (str " done")
           offline_world H).
Defined.

(** ** The parser *)

(** *** What a parser leaves is a suffix of what it was given *)

Lemma suffix_refl (s : jsstring) : suffix s s.
Proof. now exists []. Qed.

Lemma suffix_trans (a b c : jsstring) : suffix a b -> suffix b c -> suffix a c.
Proof.
  intros (p & ->) (q & ->). exists (q ++ p). now rewrite app_assoc.
Qed.

Lemma suffix_cons (c : N) (r s : jsstring) : suffix r s -> suffix r (c :: s).
Proof. intros (p & ->). now exists (c :: p). Qed.

Lemma suffix_tail (c : N) (s : jsstring) : suffix s (c :: s).
Proof. now exists [c]. Qed.

Lemma suffix_skip_ws (s : jsstring) : suffix (skip_ws s) s.
Proof.
  induction s as [ | c s IH ]; [ apply suffix_refl | ].
  simpl. destruct (is_json_ws c); [ now apply suffix_cons | apply suffix_refl ].
Qed.

Lemma suffix_after_ws (s : jsstring) (c : N) (r : jsstring) :
  skip_ws s = c :: r -> suffix r s.
Proof.
  intros E. apply suffix_trans with (c :: r); [ apply suffix_tail | ].
  rewrite <- E. apply suffix_skip_ws.
Qed.

Lemma suffix_strip_prefix (p s r : jsstring) :
  strip_prefix p s = Some r -> suffix r s.
Proof. intros H. apply strip_prefix_Some in H. now exists p. Qed.

Lemma suffix_span_digits (s : jsstring) :
  suffix (snd (span_digits s)) s.
Proof.
  induction s as [ | c s IH ]; [ apply suffix_refl | ].
  simpl. destruct (is_digit c); [ | apply suffix_refl ].
  destruct (span_digits s) as [ds rest]. now apply suffix_cons.
Qed.

Lemma suffix_parse_exponent (neg : bool) (ds : jsstring) (scale : Z)
      (s : jsstring) (q : Q) (r : jsstring) :
  parse_exponent neg ds scale s = Some (q, r) -> suffix r s.
Proof.
  unfold parse_exponent. destruct s as [ | c s' ].
  - intros [= _ <-]. apply suffix_refl.
  - destruct ((c =? 101) || (c =? 69)).
    + set (sg := match s' with
                 | sg :: s'' =>
                     if sg =? 45 then (true, s'')
                     else if sg =? 43 then (false, s'') else (false, s')
                 | [] => (false, s')
                 end).
      assert (Hs : suffix (snd sg) s').
      { subst sg. destruct s' as [ | x s'' ]; [ apply suffix_refl | ].
        destruct (x =? 45); [ apply suffix_tail | ].
        destruct (x =? 43); [ apply suffix_tail | apply suffix_refl ]. }
      destruct sg as [eneg s1]. simpl in Hs.
      pose proof (suffix_span_digits s1) as Hd.
      destruct (span_digits s1) as [es s2]. simpl in Hd.
      destruct es; [ discriminate | ].
      intros [= _ <-]. apply suffix_cons.
      now apply suffix_trans with s1.
    + intros [= _ <-]. apply suffix_refl.
Qed.

Lemma suffix_parse_fraction (neg : bool) (ints s : jsstring) (q : Q)
      (r : jsstring) :
  parse_fraction neg ints s = Some (q, r) -> suffix r s.
Proof.
  unfold parse_fraction. destruct s as [ | c s' ].
  - apply suffix_parse_exponent.
  - destruct (c =? 46).
    + pose proof (suffix_span_digits s') as Hd.
      destruct (span_digits s') as [fs s1]. simpl in Hd.
      destruct fs; [ discriminate | ].
      intros H. apply suffix_parse_exponent in H.
      apply suffix_cons. now apply suffix_trans with s1.
    + apply suffix_parse_exponent.
Qed.

Lemma suffix_parse_number (s : jsstring) (q : Q) (r : jsstring) :
  parse_number s = Some (q, r) -> suffix r s.
Proof.
  unfold parse_number.
  set (sg := match s with
             | c :: s' => if c =? 45 then (true, s') else (false, s)
             | [] => (false, s)
             end).
  assert (Hs : suffix (snd sg) s).
  { subst sg. destruct s as [ | c s' ]; [ apply suffix_refl | ].
    destruct (c =? 45); [ apply suffix_tail | apply suffix_refl ]. }
  destruct sg as [neg s1]. simpl in Hs.
  destruct s1 as [ | c s2 ]; [ discriminate | ].
  destruct (c =? 48).
  - intros H. apply suffix_parse_fraction in H.
    apply suffix_trans with (c :: s2); [ | exact Hs ].
    now apply suffix_cons.
  - destruct (is_digit c); [ | discriminate ].
    pose proof (suffix_span_digits (c :: s2)) as Hd.
    destruct (span_digits (c :: s2)) as [ds s3]. simpl in Hd.
    intros H. apply suffix_parse_fraction in H.
    apply suffix_trans with (c :: s2); [ | exact Hs ].
    now apply suffix_trans with s3.
Qed.

Lemma suffix_cons_fst (c : N) (o : option (jsstring * jsstring))
      (cs r : jsstring) :
  cons_fst c o = Some (cs, r) -> exists cs', o = Some (cs', r).
Proof.
  destruct o as [ [cs' r'] | ]; [ | discriminate ].
  intros [= _ <-]. now exists cs'.
Qed.

Lemma suffix_parse_string_chars (s cs r : jsstring) :
  parse_string_chars s = Some (cs, r) -> suffix r s.
Proof.
  remember (length s) as n eqn:Hn. revert s cs r Hn.
  induction n as [ n IH ] using lt_wf_ind. intros s cs r Hn.
  destruct s as [ | c s' ]; [ discriminate | ].
  cbn [parse_string_chars].
  destruct (c =? QUOTE); [ intros [= _ <-]; apply suffix_tail | ].
  destruct (c =? BACKSLASH).
  - destruct s' as [ | e s'' ]; [ discriminate | ].
    destruct (e =? 117).
    + destruct s'' as [ | h1 [ | h2 [ | h3 [ | h4 s3 ] ] ] ]; try discriminate.
      destruct (hex4 h1 h2 h3 h4); [ | discriminate ].
      intros H. apply suffix_cons_fst in H as (cs' & H).
      do 6 apply suffix_cons.
      apply (IH (length s3)) with (s := s3) (cs := cs');
        [ subst n; simpl; lia | reflexivity | exact H ].
    + destruct (unescape e); [ | discriminate ].
      intros H. apply suffix_cons_fst in H as (cs' & H).
      do 2 apply suffix_cons.
      apply (IH (length s'')) with (s := s'') (cs := cs');
        [ subst n; simpl; lia | reflexivity | exact H ].
  - destruct (c <? 32); [ discriminate | ].
    intros H. apply suffix_cons_fst in H as (cs' & H).
    apply suffix_cons.
    apply (IH (length s')) with (s := s') (cs := cs');
      [ subst n; simpl; lia | reflexivity | exact H ].
Qed.

Create HintDb suffix.
#[local] Hint Resolve suffix_refl suffix_tail suffix_cons suffix_after_ws
  suffix_strip_prefix suffix_parse_number suffix_parse_string_chars : suffix.

(** Chains the suffix facts at hand. *)
Ltac suffix_chain :=
  repeat match goal with
         | H : skip_ws _ = _ :: _ |- _ => apply suffix_after_ws in H
         | H : strip_prefix _ _ = Some _ |- _ => apply suffix_strip_prefix in H
         | H : parse_number _ = Some _ |- _ => apply suffix_parse_number in H
         | H : parse_string_chars _ = Some _ |- _ =>
             apply suffix_parse_string_chars in H
         end;
  eauto 7 using suffix_trans with suffix.

Lemma suffix_parse (fuel : nat) :
  (forall s v r, parse_value fuel s = Parsed v r -> suffix r s)
  /\ (forall s acc v r, parse_elements fuel s acc = Parsed v r -> suffix r s)
  /\ (forall s acc v r, parse_members fuel s acc = Parsed v r -> suffix r s).
Proof.
  induction fuel as [ | fuel (IHv & IHe & IHm) ].
  { repeat split; intros; discriminate. }
  split; [ | split ].
  - intros s v r. cbn [parse_value].
    pose proof (suffix_skip_ws s) as Hws.
    destruct (skip_ws s) as [ | c s' ]; [ discriminate | ].
    destruct (c =? LBRACKET).
    { destruct (skip_ws s') as [ | c' s'' ] eqn:E'; [ discriminate | ].
      destruct (c' =? RBRACKET).
      - intros [= _ <-]. suffix_chain.
      - intros H. apply IHe in H. suffix_chain. }
    destruct (c =? LBRACE).
    { destruct (skip_ws s') as [ | c' s'' ] eqn:E'; [ discriminate | ].
      destruct (c' =? RBRACE).
      - intros [= _ <-]. suffix_chain.
      - intros H. apply IHm in H. suffix_chain. }
    destruct (c =? QUOTE).
    { destruct (parse_string_chars s') as [ [cs rest] | ] eqn:E';
        [ | discriminate ].
      intros [= _ <-]. suffix_chain. }
    destruct (strip_prefix (str "true") (c :: s')) eqn:E1.
    { intros [= _ <-]. suffix_chain. }
    destruct (strip_prefix (str "false") (c :: s')) eqn:E2.
    { intros [= _ <-]. suffix_chain. }
    destruct (strip_prefix (str "null") (c :: s')) eqn:E3.
    { intros [= _ <-]. suffix_chain. }
    destruct (parse_number (c :: s')) as [ [q rest] | ] eqn:E4;
      [ | discriminate ].
    intros [= _ <-]. suffix_chain.
  - intros s acc v r. cbn [parse_elements].
    destruct (parse_value fuel s) as [ x r1 | | ] eqn:E; try discriminate.
    apply IHv in E.
    destruct (skip_ws r1) as [ | c r2 ] eqn:E2; [ discriminate | ].
    destruct (c =? COMMA).
    { intros H. apply IHe in H. suffix_chain. }
    destruct (c =? RBRACKET); [ | discriminate ].
    intros [= _ <-]. suffix_chain.
  - intros s acc v r. cbn [parse_members].
    destruct (skip_ws s) as [ | c s' ] eqn:E0; [ discriminate | ].
    destruct (c =? QUOTE); [ | discriminate ].
    destruct (parse_string_chars s') as [ [key s1] | ] eqn:E1;
      [ | discriminate ].
    destruct (skip_ws s1) as [ | c1 s2 ] eqn:E2; [ discriminate | ].
    destruct (c1 =? COLON); [ | discriminate ].
    destruct (parse_value fuel s2) as [ x r1 | | ] eqn:E3; try discriminate.
    apply IHv in E3.
    destruct (skip_ws r1) as [ | c2 r2 ] eqn:E4; [ discriminate | ].
    destruct (c2 =? COMMA).
    { intros H. apply IHm in H. suffix_chain. }
    destruct (c2 =? RBRACE); [ | discriminate ].
    intros [= _ <-]. suffix_chain.
Qed.

(** *** Arrays and closing brackets *)

(** The element loop gives an array that extends the elements read so
    far. *)
Lemma parse_elements_array (fuel : nat) :
  forall s acc v r,
    parse_elements fuel s acc = Parsed v r ->
    exists items, v = VArr (acc ++ items).
Proof.
  induction fuel as [ | fuel IH ]; intros s acc v r; [ discriminate | ].
  cbn [parse_elements].
  destruct (parse_value fuel s) as [ x r1 | | ]; try discriminate.
  destruct (skip_ws r1) as [ | c r2 ]; [ discriminate | ].
  destruct (c =? COMMA).
  { intros H. apply IH in H as (items & ->).
    exists (x :: items). now rewrite <- app_assoc. }
  destruct (c =? RBRACKET); [ | discriminate ].
  intros [= <- _]. now exists [x].
Qed.

(** The member loop gives an object. *)
Lemma parse_members_object (fuel : nat) :
  forall s acc v r,
    parse_members fuel s acc = Parsed v r -> is_array v = false.
Proof.
  induction fuel as [ | fuel IH ]; intros s acc v r; [ discriminate | ].
  cbn [parse_members].
  destruct (skip_ws s) as [ | c s' ]; [ discriminate | ].
  destruct (c =? QUOTE); [ | discriminate ].
  destruct (parse_string_chars s') as [ [key s1] | ]; [ | discriminate ].
  destruct (skip_ws s1) as [ | c1 s2 ]; [ discriminate | ].
  destruct (c1 =? COLON); [ | discriminate ].
  destruct (parse_value fuel s2) as [ x r1 | | ]; try discriminate.
  destruct (skip_ws r1) as [ | c2 r2 ]; [ discriminate | ].
  destruct (c2 =? COMMA); [ apply IH | ].
  destruct (c2 =? RBRACE); [ | discriminate ].
  now intros [= <- _].
Qed.

(** The element loop stops right after a closing bracket. *)
Lemma parse_elements_closes (fuel : nat) :
  forall s acc v r,
    parse_elements fuel s acc = Parsed v r -> suffix (RBRACKET :: r) s.
Proof.
  induction fuel as [ | fuel IH ]; intros s acc v r; [ discriminate | ].
  cbn [parse_elements].
  destruct (parse_value fuel s) as [ x r1 | | ] eqn:E; try discriminate.
  apply (proj1 (suffix_parse fuel)) in E.
  destruct (skip_ws r1) as [ | c r2 ] eqn:E2; [ discriminate | ].
  destruct (N.eqb_spec c COMMA).
  { intros H. apply IH in H. suffix_chain. }
  destruct (N.eqb_spec c RBRACKET) as [ -> | ]; [ | discriminate ].
  intros [= _ <-].
  apply suffix_trans with r1; [ | exact E ].
  rewrite <- E2. apply suffix_skip_ws.
Qed.

(** A value that is an array was read up to and including a closing
    bracket. *)
Lemma parse_value_array_closes (fuel : nat) (s : jsstring) (v : value)
      (r : jsstring) :
  parse_value fuel s = Parsed v r -> is_array v = true ->
  suffix (RBRACKET :: r) s.
Proof.
  destruct fuel as [ | fuel ]; [ discriminate | ].
  cbn [parse_value].
  pose proof (suffix_skip_ws s) as Hws.
  destruct (skip_ws s) as [ | c s' ]; [ discriminate | ].
  destruct (c =? LBRACKET).
  { destruct (skip_ws s') as [ | c' s'' ] eqn:E'; [ discriminate | ].
    destruct (N.eqb_spec c' RBRACKET) as [ -> | ].
    - intros [= _ <-] _.
      apply suffix_trans with (c :: s'); [ | exact Hws ].
      apply suffix_cons. rewrite <- E'. apply suffix_skip_ws.
    - intros H _. apply parse_elements_closes in H. suffix_chain. }
  destruct (c =? LBRACE).
  { destruct (skip_ws s') as [ | c' s'' ]; [ discriminate | ].
    destruct (c' =? RBRACE); [ intros [= <- _]; discriminate | ].
    intros H Ha. apply parse_members_object in H. congruence. }
  destruct (c =? QUOTE).
  { destruct (parse_string_chars s') as [ [cs rest] | ]; [ | discriminate ].
    intros [= <- _]. discriminate. }
  destruct (strip_prefix (str "true") (c :: s')).
  { intros [= <- _]. discriminate. }
  destruct (strip_prefix (str "false") (c :: s')).
  { intros [= <- _]. discriminate. }
  destruct (strip_prefix (str "null") (c :: s')).
  { intros [= <- _]. discriminate. }
  destruct (parse_number (c :: s')) as [ [q rest] | ]; [ | discriminate ].
  intros [= <- _]. discriminate.
Qed.

Lemma closes_last_suffix (t t' : jsstring) :
  closes_last t -> suffix t' t -> closes_last t'.
Proof.
  intros H (a & ->) pre rest E. apply (H (a ++ pre) rest).
  now rewrite E, app_assoc.
Qed.

Lemma closes_last_body (body : jsstring) :
  forallb not_rbracket body = true -> closes_last (body ++ [RBRACKET]).
Proof.
  induction body as [ | b body IH ]; intros Hb pre rest E.
  - destruct pre as [ | x pre ]; [ now injection E as <- | ].
    simpl in E. injection E as _ E. now destruct pre.
  - simpl in Hb. apply andb_true_iff in Hb as [Hb1 Hb2].
    destruct pre as [ | x pre ].
    + simpl in E. injection E as -> _. discriminate Hb1.
    + simpl in E. injection E as _ E. now apply (IH Hb2 pre rest).
Qed.

(** In a text whose only closing bracket is the last code unit, the
    element loop cannot read an element that is an array: that element
    would take the bracket that the loop needs. *)
Lemma parse_elements_flat (fuel : nat) :
  forall s acc v r,
    closes_last s ->
    forallb (fun x => negb (is_array x)) acc = true ->
    parse_elements fuel s acc = Parsed v r ->
    exists items,
      v = VArr items /\ forallb (fun x => negb (is_array x)) items = true.
Proof.
  induction fuel as [ | fuel IH ]; intros s acc v r Hs Hacc; [ discriminate | ].
  cbn [parse_elements].
  destruct (parse_value fuel s) as [ x r1 | | ] eqn:E; try discriminate.
  pose proof (proj1 (suffix_parse fuel) _ _ _ E) as Hr1.
  destruct (is_array x) eqn:Hx.
  { destruct (parse_value_array_closes _ _ _ _ E Hx) as (pre & Epre).
    rewrite (Hs pre r1 Epre). discriminate. }
  assert (Hacc' : forallb (fun x => negb (is_array x)) (acc ++ [x]) = true).
  { rewrite forallb_app, Hacc. simpl. now rewrite Hx. }
  destruct (skip_ws r1) as [ | c r2 ] eqn:E2; [ discriminate | ].
  destruct (c =? COMMA).
  { apply IH; [ | exact Hacc' ].
    apply closes_last_suffix with s; [ exact Hs | suffix_chain ]. }
  destruct (c =? RBRACKET); [ | discriminate ].
  intros [= <- _]. now exists (acc ++ [x]).
Qed.

(** *** JSON.parse on a bracketed text *)

(** A text that starts with an opening bracket parses to an array or
    not at all. *)
Lemma JSON_parse_bracket (t : jsstring) (v : value) :
  JSON_parse (LBRACKET :: t) = Return v -> is_array v = true.
Proof.
  unfold JSON_parse.
  destruct (parse_value _ _) as [ x r | | ] eqn:E; try discriminate.
  destruct (skip_ws r); [ | discriminate ].
  intros [= <-]. revert E.
  rewrite Nat.add_comm. cbn [Nat.add parse_value skip_ws].
  change (is_json_ws LBRACKET) with false. cbv iota.
  rewrite N.eqb_refl.
  destruct (skip_ws t) as [ | c' s'' ]; [ discriminate | ].
  destruct (c' =? RBRACKET); [ now intros [= <- _] | ].
  intros H. now apply parse_elements_array in H as (items & ->).
Qed.

(** A bracketed run without inner closing bracket parses to an array
    none of whose elements is an array, or not at all. *)
Lemma JSON_parse_flat (body : jsstring) (v : value) :
  forallb not_rbracket body = true ->
  JSON_parse (LBRACKET :: body ++ [RBRACKET]) = Return v ->
  exists items,
    v = VArr items /\ forallb (fun x => negb (is_array x)) items = true.
Proof.
  intros Hb. unfold JSON_parse.
  destruct (parse_value _ _) as [ x r | | ] eqn:E; try discriminate.
  destruct (skip_ws r); [ | discriminate ].
  intros [= <-]. revert E.
  rewrite Nat.add_comm. cbn [Nat.add parse_value skip_ws].
  change (is_json_ws LBRACKET) with false. cbv iota.
  rewrite N.eqb_refl.
  destruct (skip_ws (body ++ [RBRACKET])) as [ | c' s'' ]; [ discriminate | ].
  destruct (c' =? RBRACKET).
  { intros [= <- _]. now exists []. }
  apply parse_elements_flat; [ now apply closes_last_body | reflexivity ].
Qed.

(** *** The fuel of JSON.parse is enough *)

Lemma suffix_length (r s : jsstring) :
  suffix r s -> (length r <= length s)%nat.
Proof. intros (p & ->). rewrite length_app. lia. Qed.

Lemma strip_prefix_tail (p : jsstring) (c : N) (s' r : jsstring) :
  p <> [] -> strip_prefix p (c :: s') = Some r -> suffix r s'.
Proof.
  destruct p as [ | a p ]; [ congruence | intros _ ].
  simpl. destruct (a =? c); [ apply suffix_strip_prefix | discriminate ].
Qed.

(** A number takes at least one code unit. *)
Lemma parse_number_tail (c : N) (s' : jsstring) (q : Q) (r : jsstring) :
  parse_number (c :: s') = Some (q, r) -> suffix r s'.
Proof.
  unfold parse_number. destruct (c =? 45).
  - destruct s' as [ | c2 s2 ]; [ discriminate | ].
    destruct (c2 =? 48).
    + intros H. apply suffix_parse_fraction in H. now apply suffix_cons.
    + destruct (is_digit c2); [ | discriminate ].
      pose proof (suffix_span_digits (c2 :: s2)) as Hd.
      destruct (span_digits (c2 :: s2)) as [ds s3]. simpl in Hd.
      intros H. apply suffix_parse_fraction in H.
      now apply suffix_trans with s3.
  - destruct (c =? 48); [ apply suffix_parse_fraction | ].
    destruct (is_digit c) eqn:Hc; [ | discriminate ].
    pose proof (suffix_span_digits s') as Hd.
    cbn [span_digits]. rewrite Hc.
    destruct (span_digits s') as [ds s3]. simpl in Hd.
    intros H. apply suffix_parse_fraction in H.
    now apply suffix_trans with s3.
Qed.

(** A value takes at least one code unit. *)
Lemma parse_value_consumes (fuel : nat) (s : jsstring) (v : value)
      (r : jsstring) :
  parse_value fuel s = Parsed v r -> (length r < length s)%nat.
Proof.
  destruct fuel as [ | fuel ]; [ discriminate | ].
  cbn [parse_value].
  pose proof (suffix_length _ _ (suffix_skip_ws s)) as Hws.
  destruct (skip_ws s) as [ | c s' ]; [ discriminate | ].
  cbn [length] in Hws.
  intros H.
  enough (Hr : suffix r s') by (apply suffix_length in Hr; lia).
  revert H.
  destruct (c =? LBRACKET).
  { destruct (skip_ws s') as [ | c' s'' ] eqn:E'; [ discriminate | ].
    destruct (c' =? RBRACKET).
    - intros [= _ <-]. suffix_chain.
    - apply (proj1 (proj2 (suffix_parse fuel))). }
  destruct (c =? LBRACE).
  { destruct (skip_ws s') as [ | c' s'' ] eqn:E'; [ discriminate | ].
    destruct (c' =? RBRACE).
    - intros [= _ <-]. suffix_chain.
    - apply (proj2 (proj2 (suffix_parse fuel))). }
  destruct (c =? QUOTE).
  { destruct (parse_string_chars s') as [ [cs rest] | ] eqn:E';
      [ | discriminate ].
    intros [= _ <-]. suffix_chain. }
  destruct (strip_prefix (str "true") (c :: s')) eqn:E1.
  { intros [= _ <-]. now apply strip_prefix_tail in E1. }
  destruct (strip_prefix (str "false") (c :: s')) eqn:E2.
  { intros [= _ <-]. now apply strip_prefix_tail in E2. }
  destruct (strip_prefix (str "null") (c :: s')) eqn:E3.
  { intros [= _ <-]. now apply strip_prefix_tail in E3. }
  destruct (parse_number (c :: s')) as [ [q rest] | ] eqn:E4;
    [ | discriminate ].
  intros [= _ <-]. now apply parse_number_tail in E4.
Qed.

(** With twice the length of the input, the parser never runs out of
    fuel. *)
Lemma parse_enough_fuel (fuel : nat) :
  (forall s, (2 * length s + 1 <= fuel)%nat ->
             parse_value fuel s <> OutOfFuel)
  /\ (forall s acc, (2 * length s + 2 <= fuel)%nat ->
                    parse_elements fuel s acc <> OutOfFuel)
  /\ (forall s acc, (2 * length s + 2 <= fuel)%nat ->
                    parse_members fuel s acc <> OutOfFuel).
Proof.
  induction fuel as [ | fuel (IHv & IHe & IHm) ].
  { repeat split; intros; lia. }
  split; [ | split ].
  - intros s Hf. cbn [parse_value].
    pose proof (suffix_length _ _ (suffix_skip_ws s)) as Hws.
    destruct (skip_ws s) as [ | c s' ]; [ discriminate | ].
    cbn [length] in Hws.
    destruct (c =? LBRACKET).
    { destruct (skip_ws s') as [ | c' s'' ]; [ discriminate | ].
      destruct (c' =? RBRACKET); [ discriminate | ].
      apply IHe. lia. }
    destruct (c =? LBRACE).
    { destruct (skip_ws s') as [ | c' s'' ]; [ discriminate | ].
      destruct (c' =? RBRACE); [ discriminate | ].
      apply IHm. lia. }
    destruct (c =? QUOTE).
    { destruct (parse_string_chars s') as [ [cs rest] | ]; discriminate. }
    destruct (strip_prefix (str "true") (c :: s')); [ discriminate | ].
    destruct (strip_prefix (str "false") (c :: s')); [ discriminate | ].
    destruct (strip_prefix (str "null") (c :: s')); [ discriminate | ].
    destruct (parse_number (c :: s')) as [ [q rest] | ]; discriminate.
  - intros s acc Hf. cbn [parse_elements].
    pose proof (IHv s) as Hv.
    destruct (parse_value fuel s) as [ x r1 | | ] eqn:E;
      [ | discriminate | elim Hv; [ lia | reflexivity ] ].
    apply parse_value_consumes in E.
    destruct (skip_ws r1) as [ | c r2 ] eqn:E2; [ discriminate | ].
    apply suffix_after_ws, suffix_length in E2.
    destruct (c =? COMMA); [ apply IHe; lia | ].
    destruct (c =? RBRACKET); discriminate.
  - intros s acc Hf. cbn [parse_members].
    destruct (skip_ws s) as [ | c s' ] eqn:E0; [ discriminate | ].
    apply suffix_after_ws, suffix_length in E0.
    destruct (c =? QUOTE); [ | discriminate ].
    destruct (parse_string_chars s') as [ [key s1] | ] eqn:E1;
      [ | discriminate ].
    apply suffix_parse_string_chars, suffix_length in E1.
    destruct (skip_ws s1) as [ | c1 s2 ] eqn:E2; [ discriminate | ].
    apply suffix_after_ws, suffix_length in E2.
    destruct (c1 =? COLON); [ | discriminate ].
    pose proof (IHv s2) as Hv.
    destruct (parse_value fuel s2) as [ x r1 | | ] eqn:E3;
      [ | discriminate | elim Hv; [ lia | reflexivity ] ].
    apply parse_value_consumes in E3.
    destruct (skip_ws r1) as [ | c2 r2 ] eqn:E4; [ discriminate | ].
    apply suffix_after_ws, suffix_length in E4.
    destruct (c2 =? COMMA); [ apply IHm; lia | ].
    destruct (c2 =? RBRACE); discriminate.
Qed.

(** Once the parser has answered, more fuel does not change the
    answer. *)
Lemma parse_fuel_stable (fuel : nat) :
  (forall s, parse_value fuel s <> OutOfFuel ->
             parse_value (S fuel) s = parse_value fuel s)
  /\ (forall s acc, parse_elements fuel s acc <> OutOfFuel ->
                    parse_elements (S fuel) s acc = parse_elements fuel s acc)
  /\ (forall s acc, parse_members fuel s acc <> OutOfFuel ->
                    parse_members (S fuel) s acc = parse_members fuel s acc).
Proof.
  induction fuel as [ | fuel (IHv & IHe & IHm) ].
  { repeat split; intros; now elim H. }
  split; [ | split ].
  - intros s. cbn [parse_value].
    destruct (skip_ws s) as [ | c s' ]; [ reflexivity | ].
    destruct (c =? LBRACKET).
    { destruct (skip_ws s') as [ | c' s'' ]; [ reflexivity | ].
      destruct (c' =? RBRACKET); [ reflexivity | apply IHe ]. }
    destruct (c =? LBRACE).
    { destruct (skip_ws s') as [ | c' s'' ]; [ reflexivity | ].
      destruct (c' =? RBRACE); [ reflexivity | apply IHm ]. }
    reflexivity.
  - intros s acc. cbn [parse_elements].
    pose proof (IHv s) as Hv.
    destruct (parse_value fuel s) as [ x r1 | | ] eqn:E.
    + rewrite Hv by discriminate.
      destruct (skip_ws r1) as [ | c r2 ]; [ reflexivity | ].
      destruct (c =? COMMA); [ apply IHe | reflexivity ].
    + rewrite Hv by discriminate. reflexivity.
    + intros H. now elim H.
  - intros s acc. cbn [parse_members].
    destruct (skip_ws s) as [ | c s' ]; [ reflexivity | ].
    destruct (c =? QUOTE); [ | reflexivity ].
    destruct (parse_string_chars s') as [ [key s1] | ]; [ | reflexivity ].
    destruct (skip_ws s1) as [ | c1 s2 ]; [ reflexivity | ].
    destruct (c1 =? COLON); [ | reflexivity ].
    pose proof (IHv s2) as Hv.
    destruct (parse_value fuel s2) as [ x r1 | | ] eqn:E.
    + rewrite Hv by discriminate.
      destruct (skip_ws r1) as [ | c2 r2 ]; [ reflexivity | ].
      destruct (c2 =? COMMA); [ apply IHm | reflexivity ].
    + rewrite Hv by discriminate. reflexivity.
    + intros H. now elim H.
Qed.

(** [JSON_parse] gives its parser enough fuel: with any larger amount
    the parser answers the same. *)
Lemma JSON_parse_fuel (text : jsstring) (extra : nat) :
  parse_value (2 * length text + 1) text <> OutOfFuel
  /\ parse_value (extra + (2 * length text + 1)) text =
     parse_value (2 * length text + 1) text.
Proof.
  assert (H : parse_value (2 * length text + 1) text <> OutOfFuel)
    by (apply (proj1 (parse_enough_fuel _)); lia).
  split; [ exact H | ].
  induction extra as [ | extra IH ]; [ reflexivity | ].
  cbn [Nat.add]. rewrite <- IH.
  apply (proj1 (parse_fuel_stable _)). now rewrite IH.
Qed.

(** ** The extractor on every text *)

(** Whatever the search finds, capture 1 is a bracketed run that ends at
    its only closing bracket. *)
Lemma regex_exec_capture (text : jsstring) (m : match_result) :
  regex_exec test_regex text = Some m ->
  exists body,
    match_1 m = Some (LBRACKET :: body ++ [RBRACKET])
    /\ forallb not_rbracket body = true.
Proof.
  intros H. apply regex_exec_Some in H as (i & H).
  apply match_here_sound in H
    as (ws1 & ws2 & body & rest & _ & _ & _ & Hb & Hm).
  now exists body.
Qed.

(** C9. For every input, when [extractTestArrayFromText] returns a value
    that is not [null], that value is an array. *)
Theorem extract_result_is_array :
  forall (text : value) (w : world) (v : value),
    outcome (extractTestArrayFromText text) w = Return v ->
    v <> VNull ->
    is_array v = true.
Proof.
  intros text w v. unfold outcome.
  destruct text as [ | | b | q | s | items | props ];
    try (intros H; discriminate H).
  rewrite extract_cases.
  destruct (regex_exec test_regex s) as [ m | ] eqn:E.
  2:{ intros [= <-] Hv. now elim Hv. }
  destruct (regex_exec_capture _ _ E) as (body & Hm & _).
  destruct m as [ whole cap ]. simpl in Hm. subst cap.
  destruct (JSON_parse (LBRACKET :: body ++ [RBRACKET])) as [ x | e ] eqn:P.
  - intros [= <-] _. now apply JSON_parse_bracket in P.
  - intros [= <-] Hv. now elim Hv.
Qed.

Lemma extract_result_is_array_witness :
  outcome (extractTestArrayFromText (VStr flat_example)) offline_world =
    Return flat_array
  /\ flat_array <> VNull
  /\ is_array flat_array = true.
Proof.
  assert (H : outcome (extractTestArrayFromText (VStr flat_example))
                offline_world = Return flat_array)
    by (vm_compute; reflexivity).
  assert (Hn : flat_array <> VNull) by discriminate.
  split; [ exact H | split; [ exact Hn | ] ].
  apply (extract_result_is_array (VStr flat_example) offline_world
           flat_array H Hn).
Defined.

(** On every text the extractor gives [null] with exactly one
    diagnostic, or, with no diagnostic, an array none of whose elements
    is an array. *)
Lemma extract_null_or_flat (text : jsstring) (w : world) :
  (exists args,
      extractTestArrayFromText (VStr text) w =
        (Return VNull, [ConsoleError args]))
  \/ (exists items,
      extractTestArrayFromText (VStr text) w = (Return (VArr items), [])
      /\ forallb (fun x => negb (is_array x)) items = true).
Proof.
  rewrite extract_cases.
  destruct (regex_exec test_regex text) as [ [ whole cap ] | ] eqn:E.
  2:{ left. eexists. reflexivity. }
  destruct (regex_exec_capture _ _ E) as (body & Hm & Hb).
  simpl in Hm. subst cap.
  destruct (JSON_parse (LBRACKET :: body ++ [RBRACKET])) as [ x | e ] eqn:P.
  - destruct (JSON_parse_flat _ _ Hb P) as (items & -> & Hflat).
    right. now exists items.
  - left. eexists. reflexivity.
Qed.

(** C5. On every text the extractor gives [null] with exactly one
    diagnostic or an array none of whose elements is an array.  For
    every text that contains the nested example (the quoted key test, a
    colon, a space and the array of the arrays of 1, 2 and of 3, 4), the
    search finds a match whose capture 1 stops at its first closing
    bracket; the extractor either returns [null] with the one diagnostic
    of a parse failure, or returns, with no diagnostic, an array none of
    whose elements is an array; so it never returns the nested array. *)
Theorem extract_nested_example_truncated :
  (forall (text : jsstring) (w : world),
      (exists args,
          extractTestArrayFromText (VStr text) w =
            (Return VNull, [ConsoleError args]))
      \/ (exists items,
          extractTestArrayFromText (VStr text) w = (Return (VArr items), [])
          /\ forallb (fun x => negb (is_array x)) items = true))
  /\
  (forall (before after : jsstring) (w : world),
    (exists whole body,
        regex_exec test_regex (before ++ nested_example ++ after) =
          Some (MatchResult whole (Some (LBRACKET :: body ++ [RBRACKET])))
        /\ forallb not_rbracket body = true)
    /\ ((exists e,
            extractTestArrayFromText
              (VStr (before ++ nested_example ++ after)) w =
              (Return VNull, [parse_failure_diagnostic e]))
        \/ (exists items,
            extractTestArrayFromText
              (VStr (before ++ nested_example ++ after)) w =
              (Return (VArr items), [])
            /\ forallb (fun x => negb (is_array x)) items = true))
    /\ outcome (extractTestArrayFromText
                  (VStr (before ++ nested_example ++ after))) w
       <> Return nested_array).
Proof.
  split; [ exact extract_null_or_flat | ].
  intros before after w.
  assert (Hat : test_array_at (before ++ nested_example ++ after)
                  (length before)).
  { exists [], [32], (str "[1,2], [3,4]"), after.
    rewrite skipn_app, skipn_all, Nat.sub_diag.
    split; [ reflexivity | split; reflexivity ]. }
  apply match_here_iff in Hat. apply regex_exec_finds in Hat.
  destruct (regex_exec test_regex (before ++ nested_example ++ after))
    as [ [ whole cap ] | ] eqn:E; [ clear Hat | now elim Hat ].
  destruct (regex_exec_capture _ _ E) as (body & Hm & Hb).
  simpl in Hm. subst cap.
  unfold outcome. rewrite extract_cases, E.
  split; [ now exists whole, body | ].
  destruct (JSON_parse (LBRACKET :: body ++ [RBRACKET])) as [ x | e ] eqn:P.
  - destruct (JSON_parse_flat _ _ Hb P) as (items & -> & Hflat).
    split.
    + right. now exists items.
    + unfold nested_array. simpl. intros [= ->]. discriminate Hflat.
  - split.
    + left. now exists e.
    + discriminate.
Qed.

(** ** Runs of the model *)

(** The nested example on its own: the capture is cut after the 2, and
    parsing it fails. *)
Example extract_nested_example_alone :
  regex_exec test_regex nested_example =
    Some (MatchResult (quoted "test" ++ str ": [[1,2]")
            (Some (str "[[1,2]")))
  /\ extractTestArrayFromText (VStr nested_example) offline_world =
       (Return VNull, [parse_failure_diagnostic json_syntax_error]).
Proof. split; vm_compute; reflexivity. Qed.

(** An array of objects, the shape the prompt asks for, is extracted. *)
Example extract_array_of_objects :
  outcome
    (extractTestArrayFromText
       (VStr (str "{" ++ quoted "test" ++ str ": [{" ++ quoted "id"
              ++ str ": 1, " ++ quoted "hidden" ++ str ": false}]}")))
    offline_world =
  Return (VArr [VObj [(str "id", VNum 1); (str "hidden", VBool false)]]).
Proof. vm_compute. reflexivity. Qed.

(** A closing bracket inside a string element cuts the capture too. *)
Example extract_bracket_in_string :
  extractTestArrayFromText
    (VStr (quoted "test" ++ str ": [" ++ quoted "a]b" ++ str "]"))
    offline_world =
  (Return VNull, [parse_failure_diagnostic json_syntax_error]).
Proof. vm_compute. reflexivity. Qed.

(** The body that [makeTestCases] posts for a tiny question. *)
Example makeTestCases_body :
  fetches (trace (makeTestCases (str "Q") (str "F") 2) offline_world) =
  [Fetch ENDPOINT
     (json_post
        (Some (str "{" ++ quoted "model" ++ str ":" ++ quoted "codellama"
               ++ str "," ++ quoted "messages" ++ str ":[{" ++ quoted "role"
               ++ str ":" ++ quoted "user" ++ str "," ++ quoted "content"
               ++ str ":"
               ++ QuoteJSONString (test_case_prompt (str "Q") (str "F") (str "2"))
               ++ str "}]," ++ quoted "stream" ++ str ":false}")))].
Proof. vm_compute. reflexivity. Qed.

(** A successful round: the reply is parsed, its content scanned, and
    both the reply and the extracted array are printed. *)
Example printTestCases_round :
  let reply :=
    VObj [(str "message",
           VObj [(str "content",
                  VStr (str "Here: " ++ quoted "test" ++ str ": [1, 2]"))])] in
  let w := World (fun _ _ =>
                    Return (Response 200
                              (Return (str "{" ++ quoted "message" ++ str ":{"
                                       ++ quoted "content" ++ str ":"
                                       ++ QuoteJSONString
                                            (str "Here: " ++ quoted "test"
                                             ++ str ": [1, 2]")
                                       ++ str "}}"))))
                 (fun _ _ => Throw (Exn HostErrorClass (str "ENOENT")))
                 (fun _ => str "NaN") in
  outcome (printTestCases (str "Q") (str "F") 2) w = Return VUndefined
  /\ filter is_console_log (trace (printTestCases (str "Q") (str "F") 2) w) =
       [ConsoleLog [ArgValue reply];
        ConsoleLog [ArgValue (VArr [VNum 1; VNum 2])]].
Proof. split; vm_compute; reflexivity. Qed.

(** * Further properties *)

(** ** The dispatcher, in full *)

(** An operation is its outcome and its trace. *)
Lemma run_eq {A} (m : M A) (w : world) : m w = (outcome m w, trace m w).
Proof. unfold outcome, trace. now destruct (m w). Qed.

Lemma bind_Return {A B} (m : M A) (f : A -> M B) (w : world) (a : A) :
  outcome m w = Return a ->
  bind m f w = (outcome (f a) w, trace m w ++ trace (f a) w).
Proof.
  unfold outcome, trace, bind. destruct (m w) as [r t]. simpl.
  intros ->. now destruct (f a w).
Qed.

Lemma bind_Throw {A B} (m : M A) (f : A -> M B) (w : world) (e : exn) :
  outcome m w = Throw e -> bind m f w = (Throw e, trace m w).
Proof.
  unfold outcome, trace, bind. destruct (m w) as [r t]. simpl. now intros ->.
Qed.

(** X1. When the server answers with a status in 200-299 and a body
    that is JSON, [makeRequest] returns the parsed body; the POST is its
    only effect, nothing is logged. *)
Theorem makeRequest_success :
  forall (payload : value) (w : world) (r : response) (data : value),
    fetch_oracle w ENDPOINT (json_post (stringify w payload)) = Return r ->
    response_ok r = true ->
    outcome (response_json r) w = Return data ->
    makeRequest payload w =
      (Return data, [Fetch ENDPOINT (json_post (stringify w payload))]).
Proof.
  intros payload w r data Hf Hok Hj.
  rewrite makeRequest_cases. cbv zeta. rewrite Hf, Hok.
  unfold outcome, response_json in Hj.
  destruct (response_text r) as [ text | e ]; [ | discriminate Hj ].
  unfold lift in Hj. simpl in Hj. now rewrite Hj.
Qed.

Lemma makeRequest_success_witness :
  fetch_oracle (replying_world 200 (str "[true, null]")) ENDPOINT
    (json_post (stringify (replying_world 200 (str "[true, null]"))
                  (codellama_payload []))) =
    Return (Response 200 (Return (str "[true, null]")))
  /\ response_ok (Response 200 (Return (str "[true, null]"))) = true
  /\ outcome (response_json (Response 200 (Return (str "[true, null]"))))
       (replying_world 200 (str "[true, null]")) =
       Return (VArr [VBool true; VNull])
  /\ makeRequest (codellama_payload [])
       (replying_world 200 (str "[true, null]")) =
       (Return (VArr [VBool true; VNull]),
        [Fetch ENDPOINT
           (json_post (stringify (replying_world 200 (str "[true, null]"))
                         (codellama_payload [])))]).
Proof.
  split; [ reflexivity | split; [ reflexivity | split; [ reflexivity | ] ] ].
  apply (makeRequest_success (codellama_payload [])
           (replying_world 200 (str "[true, null]"))
           (Response 200 (Return (str "[true, null]")))
           (VArr [VBool true; VNull])); reflexivity.
Defined.

(** X2. When the server answers with a status in 200-299 but the body
    cannot be read or is not JSON, [makeRequest] returns [null] and logs
    exactly one diagnostic, the one for the error of [response.json()]. *)
Theorem makeRequest_unreadable_body :
  forall (payload : value) (w : world) (r : response) (e : exn),
    fetch_oracle w ENDPOINT (json_post (stringify w payload)) = Return r ->
    response_ok r = true ->
    outcome (response_json r) w = Throw e ->
    makeRequest payload w =
      (Return VNull,
       [Fetch ENDPOINT (json_post (stringify w payload));
        request_diagnostic e]).
Proof.
  intros payload w r e Hf Hok Hj.
  rewrite makeRequest_cases. cbv zeta. rewrite Hf, Hok.
  unfold outcome, response_json in Hj.
  destruct (response_text r) as [ text | e' ].
  - unfold lift in Hj. simpl in Hj. now rewrite Hj.
  - unfold throw in Hj. simpl in Hj. now injection Hj as ->.
Qed.

Lemma makeRequest_unreadable_body_witness :
  fetch_oracle (replying_world 200 (str "<html>")) ENDPOINT
    (json_post (stringify (replying_world 200 (str "<html>"))
                  (codellama_payload []))) =
    Return (Response 200 (Return (str "<html>")))
  /\ response_ok (Response 200 (Return (str "<html>"))) = true
  /\ outcome (response_json (Response 200 (Return (str "<html>"))))
       (replying_world 200 (str "<html>")) = Throw json_syntax_error
  /\ makeRequest (codellama_payload []) (replying_world 200 (str "<html>")) =
       (Return VNull,
        [Fetch ENDPOINT
           (json_post (stringify (replying_world 200 (str "<html>"))
                         (codellama_payload [])));
         request_diagnostic json_syntax_error]).
Proof.
  split; [ reflexivity | split; [ reflexivity | split; [ reflexivity | ] ] ].
  apply (makeRequest_unreadable_body (codellama_payload [])
           (replying_world 200 (str "<html>"))
           (Response 200 (Return (str "<html>")))
           json_syntax_error); reflexivity.
Defined.

(** X3. In every world [makeRequest] returns normally, and its trace is
    the POST alone, or the POST followed by one diagnostic, in which case
    the value returned is [null].  It prints nothing and reads no file. *)
Theorem makeRequest_trace_shape :
  forall (payload : value) (w : world),
    (exists data,
        makeRequest payload w =
          (Return data, [Fetch ENDPOINT (json_post (stringify w payload))]))
    \/ (exists e,
        makeRequest payload w =
          (Return VNull,
           [Fetch ENDPOINT (json_post (stringify w payload));
            request_diagnostic e])).
Proof.
  intros payload w. rewrite makeRequest_cases. cbv zeta.
  destruct (fetch_oracle w ENDPOINT _) as [ r | e ];
    [ | right; now exists e ].
  destruct (response_ok r); [ | right; eexists; reflexivity ].
  destruct (response_text r) as [ text | e ]; [ | right; now exists e ].
  destruct (JSON_parse text) as [ data | e ];
    [ left; now exists data | right; now exists e ].
Qed.

(** ** The request operations *)



(** X5. [codeSuggestions] sends a conversation of three turns: a user
    turn whose instruction contains the language and the review focus,
    the fixed assistant turn, and a user turn whose content is the code,
    as it was given. *)
Theorem codeSuggestions_conversation :
  forall (code : value) (format lang : jsstring) (w : world),
  exists payload instruction,
    codeSuggestions code format lang w = makeRequest payload w
    /\ get_property payload (str "messages") =
         Return
           (VArr
              [VObj [(str "role", VStr (str "user"));
                     (str "content", VStr instruction)];
               VObj [(str "role", VStr (str "assistant"));
                     (str "content",
                      VStr (str "Hi, please provide the code that you want suggestions for"))];
               VObj [(str "role", VStr (str "user"));
                     (str "content", code)]])
    /\ includes instruction lang
    /\ includes instruction format.
Proof.
  intros code format lang w. eexists. eexists.
  split; [ reflexivity | split; [ reflexivity | split ] ].
  - apply includes_app_r. apply includes_here.
  - do 3 apply includes_app_r. exists [], []. now rewrite app_nil_r.
Qed.

(** The text of an integer in the safe range. *)
Lemma Number_toString_integer (w : world) (z : Z) :
  (Z.abs z <= MAX_SAFE_INTEGER)%Z ->
  Number_toString w (inject_Z z) = digits_of_Z z.
Proof.
  intros Hz. unfold Number_toString, inject_Z, Qred.
  pose proof (Z.ggcd_gcd z 1) as Hg.
  pose proof (Z.ggcd_correct_divisors z 1) as Hd.
  destruct (Z.ggcd z 1) as [ g [ a b ] ]. simpl in Hg, Hd.
  rewrite Z.gcd_1_r in Hg. subst g. destruct Hd as [Ha Hb].
  assert (a = z) by lia. assert (b = 1%Z) by lia. subst a b.
  cbn [snd Qden Qnum Z.to_pos]. rewrite Pos.eqb_refl.
  apply Z.leb_le in Hz. now rewrite Hz.
Qed.

(** X6. [makeTestCases] does not validate the count: for every integer
    in the safe range, zero and the negative ones included, it posts the
    prompt with the decimal text of the count in both places. *)
Theorem makeTestCases_any_count :
  forall (question format : jsstring) (z : Z) (w : world),
    (Z.abs z <= MAX_SAFE_INTEGER)%Z ->
    makeTestCases question format (inject_Z z) w =
      makeRequest
        (codellama_payload
           [turn "user"
              (VStr (test_case_prompt question format (digits_of_Z z)))]) w
    /\ includes (test_case_prompt question format (digits_of_Z z))
         (str "Generate " ++ digits_of_Z z ++ str " test cases")
    /\ includes (test_case_prompt question format (digits_of_Z z))
         (str "Make sure to have" ++ digits_of_Z z ++ str "  tests cases").
Proof.
  intros question format z w Hz. split; [ | split ].
  - rewrite makeTestCases_request, Number_toString_integer by exact Hz.
    reflexivity.
  - exists (str "Without any comments or context, "),
      (str " for this question, (" ++ question
       ++ str " ), include cases such as edge cases, large cases. The output should strictly be in JSON format, adhering to the template provided: ( "
       ++ format ++ str " )" ++ [10]
       ++ str " *** ONLY RETURN CODE <<<< DO NOT number it or anything, simply return code. Make sure to have"
       ++ digits_of_Z z ++ str "  tests cases and all parameters ***").
    unfold test_case_prompt. rewrite <- !app_assoc. reflexivity.
  - exists (str "Without any comments or context, Generate "
            ++ digits_of_Z z ++ str " test cases for this question, ("
            ++ question
            ++ str " ), include cases such as edge cases, large cases. The output should strictly be in JSON format, adhering to the template provided: ( "
            ++ format ++ str " )" ++ [10]
            ++ str " *** ONLY RETURN CODE <<<< DO NOT number it or anything, simply return code. "),
      (str " and all parameters ***").
    unfold test_case_prompt. rewrite <- !app_assoc. reflexivity.
Qed.

Lemma makeTestCases_any_count_witness :
  (Z.abs (-3) <= MAX_SAFE_INTEGER)%Z
  /\ digits_of_Z (-3) = str "-3"
  /\ makeTestCases (str "Q") (str "F") (inject_Z (-3)) offline_world =
       makeRequest
         (codellama_payload
            [turn "user"
               (VStr (test_case_prompt (str "Q") (str "F") (digits_of_Z (-3))))])
         offline_world.
Proof.
  assert (H : (Z.abs (-3) <= MAX_SAFE_INTEGER)%Z) by (vm_compute; discriminate).
  split; [ exact H | split; [ reflexivity | ] ].
  apply (makeTestCases_any_count (str "Q") (str "F") (-3) offline_world H).
Defined.

(** ** The printing operations *)

(** X7. When the reply has a [message] that has a [content],
    [printCodeSug] prints that content, once and after the request, and
    returns [undefined]. *)
Theorem printCodeSug_prints_content :
  forall (code : value) (format lang : jsstring) (w : world)
         (results message content : value),
    outcome (codeSuggestions code format lang) w = Return results ->
    get_property results (str "message") = Return message ->
    get_property message (str "content") = Return content ->
    printCodeSug code format lang w =
      (Return VUndefined,
       trace (codeSuggestions code format lang) w
         ++ [ConsoleLog [ArgValue content]]).
Proof.
  intros code format lang w results message content Hr Hm Hc.
  unfold printCodeSug. rewrite (bind_Return _ _ w results Hr).
  unfold outcome, trace, bind, lift. cbv beta. rewrite Hm. cbv beta iota.
  rewrite Hc. reflexivity.
Qed.

Lemma printCodeSug_prints_content_witness :
  let text := str "{" ++ quoted "message" ++ str ":{" ++ quoted "content"
              ++ str ":" ++ quoted "Looks fine." ++ str "}}" in
  let w := replying_world 200 text in
  let code := VStr (str "x = 1") in
  let message := VObj [(str "content", VStr (str "Looks fine."))] in
  outcome (codeSuggestions code (str "style") (str "Python")) w =
    Return (VObj [(str "message", message)])
  /\ printCodeSug code (str "style") (str "Python") w =
       (Return VUndefined,
        trace (codeSuggestions code (str "style") (str "Python")) w
          ++ [ConsoleLog [ArgValue (VStr (str "Looks fine."))]]).
Proof.
  cbv zeta.
  split; [ vm_compute; reflexivity | ].
  apply (printCodeSug_prints_content _ _ _ _
           (VObj [(str "message",
                   VObj [(str "content", VStr (str "Looks fine."))])])
           (VObj [(str "content", VStr (str "Looks fine."))])
           (VStr (str "Looks fine."))).
  - vm_compute. reflexivity.
  - reflexivity.
  - reflexivity.
Defined.

(** X8. When the reply is not [null] but its [message] is missing or
    [null] (an error object of the server, say), [printCodeSug] throws a
    TypeError for the read of [content], after the request, and prints
    nothing. *)
Theorem printCodeSug_faults_without_message :
  forall (code : value) (format lang : jsstring) (w : world)
         (results message : value),
    outcome (codeSuggestions code format lang) w = Return results ->
    get_property results (str "message") = Return message ->
    message = VUndefined \/ message = VNull ->
    exists msg,
      printCodeSug code format lang w =
        (Throw (Exn TypeErrorClass msg),
         trace (codeSuggestions code format lang) w).
Proof.
  intros code format lang w results message Hr Hm Hcase.
  unfold printCodeSug. rewrite (bind_Return _ _ w results Hr).
  unfold outcome, trace, bind, lift. cbv beta. rewrite Hm. cbv beta iota.
  destruct Hcase as [ -> | -> ]; simpl; rewrite app_nil_r;
    eexists; reflexivity.
Qed.

Lemma printCodeSug_faults_without_message_witness :
  let text := str "{" ++ quoted "error" ++ str ":" ++ quoted "model not found"
              ++ str "}" in
  let w := replying_world 200 text in
  outcome (codeSuggestions VNull (str "style") (str "Python")) w =
    Return (VObj [(str "error", VStr (str "model not found"))])
  /\ exists msg,
      printCodeSug VNull (str "style") (str "Python") w =
        (Throw (Exn TypeErrorClass msg),
         trace (codeSuggestions VNull (str "style") (str "Python")) w).
Proof.
  cbv zeta.
  split; [ vm_compute; reflexivity | ].
  apply (printCodeSug_faults_without_message _ _ _ _
           (VObj [(str "error", VStr (str "model not found"))]) VUndefined).
  - vm_compute. reflexivity.
  - reflexivity.
  - now left.
Defined.

(** On a string the extractor returns normally. *)
Lemma extract_returns (text : jsstring) (w : world) :
  exists tests, outcome (extractTestArrayFromText (VStr text)) w = Return tests.
Proof.
  unfold outcome.
  destruct (extract_null_or_flat text w) as [ (args & ->) | (items & -> & _) ];
    eexists; reflexivity.
Qed.

(** X9. When the content of the reply is a string, [printTestCases]
    returns [undefined] after these effects, in this order: the request,
    the diagnostic of the extractor if any, the print of the whole reply,
    and the print of what the extractor returned ([null] included). *)
Theorem printTestCases_prints_reply_then_tests :
  forall (question format : jsstring) (numOfCases : Q) (w : world)
         (results message : value) (text : jsstring),
    outcome (makeTestCases question format numOfCases) w = Return results ->
    get_property results (str "message") = Return message ->
    get_property message (str "content") = Return (VStr text) ->
    exists tests,
      outcome (extractTestArrayFromText (VStr text)) w = Return tests
      /\ printTestCases question format numOfCases w =
           (Return VUndefined,
            trace (makeTestCases question format numOfCases) w
              ++ trace (extractTestArrayFromText (VStr text)) w
              ++ [ConsoleLog [ArgValue results]; ConsoleLog [ArgValue tests]]).
Proof.
  intros question format n w results message text Hr Hm Hc.
  destruct (extract_returns text w) as (tests & Ht).
  exists tests. split; [ exact Ht | ].
  unfold printTestCases. rewrite (bind_Return _ _ w results Hr).
  match goal with
  | |- (outcome ?k w, _) = _ =>
      assert (K : k w =
                  (Return VUndefined,
                   trace (extractTestArrayFromText (VStr text)) w
                     ++ [ConsoleLog [ArgValue results];
                         ConsoleLog [ArgValue tests]]))
  end.
  { rewrite Hm. unfold lift at 1. rewrite bind_pure.
    rewrite Hc. unfold lift at 1. rewrite bind_pure.
    rewrite (bind_Return _ _ w tests Ht). reflexivity. }
  unfold outcome at 1, trace at 2. rewrite K. reflexivity.
Qed.

Lemma printTestCases_prints_reply_then_tests_witness :
  let content := str "Sure: " ++ quoted "test" ++ str ": [[1,2], [3,4]]" in
  let text := str "{" ++ quoted "message" ++ str ":{" ++ quoted "content"
              ++ str ":" ++ QuoteJSONString content ++ str "}}" in
  let w := replying_world 200 text in
  let message := VObj [(str "content", VStr content)] in
  let results := VObj [(str "message", message)] in
  outcome (makeTestCases (str "Q") (str "F") 2) w = Return results
  /\ exists tests,
      outcome (extractTestArrayFromText (VStr content)) w = Return tests
      /\ printTestCases (str "Q") (str "F") 2 w =
           (Return VUndefined,
            trace (makeTestCases (str "Q") (str "F") 2) w
              ++ trace (extractTestArrayFromText (VStr content)) w
              ++ [ConsoleLog [ArgValue results]; ConsoleLog [ArgValue tests]]).
Proof.
  cbv zeta.
  split; [ vm_compute; reflexivity | ].
  apply (printTestCases_prints_reply_then_tests _ _ _ _
           (VObj [(str "message",
                   VObj [(str "content",
                          VStr (str "Sure: " ++ quoted "test"
                                ++ str ": [[1,2], [3,4]]"))])])
           (VObj [(str "content",
                   VStr (str "Sure: " ++ quoted "test"
                         ++ str ": [[1,2], [3,4]]"))])).
  - vm_compute. reflexivity.
  - reflexivity.
  - reflexivity.
Defined.

(** X10. When the content of the reply cannot be read or is not a
    string, [printTestCases] throws a TypeError after the request and
    prints nothing, not even the reply. *)
Theorem printTestCases_faults_without_text :
  forall (question format : jsstring) (numOfCases : Q) (w : world)
         (results message : value),
    outcome (makeTestCases question format numOfCases) w = Return results ->
    get_property results (str "message") = Return message ->
    match get_property message (str "content") with
    | Return (VStr _) => False
    | _ => True
    end ->
    exists msg,
      printTestCases question format numOfCases w =
        (Throw (Exn TypeErrorClass msg),
         trace (makeTestCases question format numOfCases) w).
Proof.
  intros question format n w results message Hr Hm Hc.
  unfold printTestCases. rewrite (bind_Return _ _ w results Hr).
  match goal with
  | |- exists msg, (outcome ?k w, _) = _ =>
      assert (K : exists msg, k w = (Throw (Exn TypeErrorClass msg), []))
  end.
  { rewrite Hm. unfold lift at 1. rewrite bind_pure.
    destruct (get_property message (str "content")) as [ c | e ] eqn:E.
    - unfold lift at 1. rewrite bind_pure.
      destruct c; try (now elim Hc); eexists; reflexivity.
    - destruct message; try discriminate E;
        injection E as <-; eexists; reflexivity. }
  destruct K as (msg & K). exists msg.
  unfold outcome at 1, trace at 2. rewrite K. simpl. now rewrite app_nil_r.
Qed.

Lemma printTestCases_faults_without_text_witness :
  let text := str "{" ++ quoted "error" ++ str ":" ++ quoted "model not found"
              ++ str "}" in
  let w := replying_world 200 text in
  outcome (makeTestCases (str "Q") (str "F") 2) w =
    Return (VObj [(str "error", VStr (str "model not found"))])
  /\ exists msg,
      printTestCases (str "Q") (str "F") 2 w =
        (Throw (Exn TypeErrorClass msg),
         trace (makeTestCases (str "Q") (str "F") 2) w).
Proof.
  cbv zeta.
  split; [ vm_compute; reflexivity | ].
  apply (printTestCases_faults_without_text _ _ _ _
           (VObj [(str "error", VStr (str "model not found"))]) VUndefined).
  - vm_compute. reflexivity.
  - reflexivity.
  - exact I.
Defined.

(** ** The extractor, in full *)

(** X11. The extractor takes the first place, from the left, where the
    quoted key, whitespace, a colon, whitespace and an opening bracket
    stand with a closing bracket further on; it cuts at the first closing
    bracket, and its result is that of [JSON.parse] on the cut: the
    parsed value with no diagnostic, or [null] with the diagnostic of the
    parse failure.  What follows the cut plays no part. *)
Theorem extract_first_occurrence :
  forall (before ws1 ws2 body rest : jsstring) (w : world),
    forallb is_regex_space ws1 = true ->
    forallb is_regex_space ws2 = true ->
    forallb not_rbracket body = true ->
    (forall i, (i < length before)%nat ->
               ~ test_array_at
                   (before ++ quoted "test" ++ ws1 ++ COLON :: ws2
                      ++ LBRACKET :: body ++ RBRACKET :: rest) i) ->
    extractTestArrayFromText
      (VStr (before ++ quoted "test" ++ ws1 ++ COLON :: ws2
               ++ LBRACKET :: body ++ RBRACKET :: rest)) w =
    match JSON_parse (LBRACKET :: body ++ [RBRACKET]) with
    | Return testArray => (Return testArray, [])
    | Throw e => (Return VNull, [parse_failure_diagnostic e])
    end.
Proof.
  intros before ws1 ws2 body rest w H1 H2 Hb Hfirst.
  rewrite extract_cases, regex_exec_skip.
  2:{ intros i Hi.
      destruct (match_here test_regex (skipn i _)) eqn:E; [ | reflexivity ].
      elim (Hfirst i Hi). apply match_here_iff. congruence. }
  rewrite regex_exec_eq.
  destruct (match_here_complete ws1 ws2 body rest H1 H2 Hb) as (whole & ->).
  reflexivity.
Qed.

Lemma extract_first_occurrence_witness :
  forallb is_regex_space [160] = true
  /\ forallb is_regex_space [10; 32] = true
  /\ forallb not_rbracket (str "true, [null") = true
  /\ (forall i, (i < length (str "ok "))%nat ->
                ~ test_array_at
                    (str "ok " ++ quoted "test" ++ [160] ++ COLON :: [10; 32]
                       ++ LBRACKET :: str "true, [null" ++ RBRACKET :: str "]")
                    i)
  /\ extractTestArrayFromText
       (VStr (str "ok " ++ quoted "test" ++ [160] ++ COLON :: [10; 32]
                ++ LBRACKET :: str "true, [null" ++ RBRACKET :: str "]"))
       offline_world =
     (Return VNull, [parse_failure_diagnostic json_syntax_error]).
Proof.
  assert (H : forall i, (i < length (str "ok "))%nat ->
                ~ test_array_at
                    (str "ok " ++ quoted "test" ++ [160] ++ COLON :: [10; 32]
                       ++ LBRACKET :: str "true, [null" ++ RBRACKET :: str "]")
                    i).
  { intros i Hi Hat. apply match_here_iff in Hat. apply Hat.
    do 3 (destruct i as [ | i ]; [ vm_compute; reflexivity | ]).
    vm_compute in Hi. lia. }
  split; [ reflexivity | split; [ reflexivity | split; [ reflexivity | ] ] ].
  split; [ exact H | ].
  apply (extract_first_occurrence (str "ok ") [160] [10; 32]
           (str "true, [null") (str "]") offline_world
           eq_refl eq_refl eq_refl H).
Defined.

(** *** Text after a match *)

Lemma no_rbracket_in (f : N -> bool) (s : jsstring) :
  f RBRACKET = false -> forallb f s = true -> ~ In RBRACKET s.
Proof.
  intros Hf Hs Hin. rewrite forallb_forall in Hs.
  specialize (Hs _ Hin). congruence.
Qed.

(** A text that agrees with [p ++ c :: r] and holds a [c], where [p]
    holds none, reaches that [c]. *)
Lemma reaches_first (c : N) (p s rest r : jsstring) :
  s ++ rest = p ++ c :: r -> In c s -> ~ In c p ->
  exists r', s = p ++ c :: r'.
Proof.
  revert s. induction p as [ | x p IH ]; intros s E Hs Hp.
  - destruct s as [ | y s ]; [ now elim Hs | ].
    simpl in E. injection E as -> _. now exists s.
  - destruct s as [ | y s ]; [ now elim Hs | ].
    simpl in E. injection E as -> E.
    destruct Hs as [ -> | Hs ]; [ elim Hp; now left | ].
    destruct (IH s E Hs) as (r' & ->); [ intros H; apply Hp; now right | ].
    now exists r'.
Qed.

Lemma pattern_app (k ws1 ws2 body tail : jsstring) :
  (k ++ ws1 ++ COLON :: ws2 ++ LBRACKET :: body) ++ tail =
  k ++ ws1 ++ COLON :: ws2 ++ LBRACKET :: body ++ tail.
Proof.
  rewrite <- !app_assoc. simpl. rewrite <- !app_assoc. reflexivity.
Qed.

Lemma pattern_app_rest (k ws1 ws2 body r rest : jsstring) :
  (k ++ ws1 ++ COLON :: ws2 ++ LBRACKET :: body ++ RBRACKET :: r) ++ rest =
  k ++ ws1 ++ COLON :: ws2 ++ LBRACKET :: body ++ RBRACKET :: r ++ rest.
Proof.
  rewrite <- !app_assoc. simpl. rewrite <- !app_assoc. simpl.
  rewrite <- !app_assoc. reflexivity.
Qed.

(** An attempt that fails on a text with a closing bracket fails on
    every extension of it. *)
Lemma match_here_extend_None (s rest : jsstring) :
  match_here test_regex s = None -> In RBRACKET s ->
  match_here test_regex (s ++ rest) = None.
Proof.
  intros Hnone Hin.
  destruct (match_here test_regex (s ++ rest)) as [ m | ] eqn:E;
    [ | reflexivity ].
  apply match_here_sound in E
    as (ws1 & ws2 & body & r & E & H1 & H2 & Hb & _).
  assert (Hp : ~ In RBRACKET
                 (quoted "test" ++ ws1 ++ COLON :: ws2 ++ LBRACKET :: body)).
  { rewrite !in_app_iff. simpl. rewrite !in_app_iff. simpl.
    pose proof (no_rbracket_in is_regex_space ws1 eq_refl H1).
    pose proof (no_rbracket_in is_regex_space ws2 eq_refl H2).
    pose proof (no_rbracket_in not_rbracket body eq_refl Hb).
    unfold QUOTE, COLON, LBRACKET, RBRACKET in *.
    intuition discriminate. }
  destruct (reaches_first RBRACKET
              (quoted "test" ++ ws1 ++ COLON :: ws2 ++ LBRACKET :: body)
              s rest r) as (r' & Es); [ | exact Hin | exact Hp | ].
  { rewrite E. symmetry. apply pattern_app. }
  destruct (match_here_complete ws1 ws2 body r' H1 H2 Hb) as (whole & Hc).
  rewrite Es, pattern_app in Hnone. congruence.
Qed.

(** A successful attempt succeeds on every extension of the text, with
    the same capture. *)
Lemma match_here_extend_Some (s rest : jsstring) (m : match_result) :
  match_here test_regex s = Some m ->
  exists m', match_here test_regex (s ++ rest) = Some m'
             /\ match_1 m' = match_1 m.
Proof.
  intros E. apply match_here_sound in E
    as (ws1 & ws2 & body & r & -> & H1 & H2 & Hb & Hm).
  destruct (match_here_complete ws1 ws2 body (r ++ rest) H1 H2 Hb)
    as (whole & Hc).
  exists (MatchResult whole (Some (LBRACKET :: body ++ [RBRACKET]))).
  split; [ | now rewrite Hm ].
  rewrite <- Hc. f_equal. apply pattern_app_rest.
Qed.

(** A text in which the search finds a match holds a closing bracket. *)
Lemma regex_exec_rbracket (s : jsstring) (m : match_result) :
  regex_exec test_regex s = Some m -> In RBRACKET s.
Proof.
  intros H. apply regex_exec_Some in H as (i & H).
  apply match_here_sound in H as (ws1 & ws2 & body & r & E & _).
  assert (Hin : In RBRACKET (skipn i s)).
  { rewrite E, !in_app_iff. right. right. simpl. right.
    rewrite in_app_iff. right. simpl. right.
    rewrite in_app_iff. right. now left. }
  rewrite <- (firstn_skipn i s). apply in_or_app. now right.
Qed.

(** The search finds the same capture in every extension of a text in
    which it finds one. *)
Lemma regex_exec_extend (s rest : jsstring) (m : match_result) :
  regex_exec test_regex s = Some m ->
  exists m', regex_exec test_regex (s ++ rest) = Some m'
             /\ match_1 m' = match_1 m.
Proof.
  induction s as [ | x s IH ]; rewrite regex_exec_eq.
  - destruct (match_here test_regex []) as [ m0 | ] eqn:E; [ | discriminate ].
    intros [= <-].
    destruct (match_here_extend_Some [] rest m0 E) as (m' & E' & Hm').
    exists m'. split; [ | exact Hm' ].
    rewrite regex_exec_eq, E'. reflexivity.
  - destruct (match_here test_regex (x :: s)) as [ m0 | ] eqn:E.
    + intros [= <-].
      destruct (match_here_extend_Some (x :: s) rest m0 E) as (m' & E' & Hm').
      exists m'. split; [ | exact Hm' ].
      rewrite regex_exec_eq, E'. reflexivity.
    + intros H. pose proof (regex_exec_rbracket s m H) as Hin.
      destruct (IH H) as (m' & E' & Hm').
      exists m'. split; [ | exact Hm' ].
      rewrite regex_exec_eq.
      rewrite (match_here_extend_None (x :: s) rest E) by now right.
      exact E'.
Qed.

(** X12. Once a text holds the pattern somewhere, whatever is appended
    to it changes nothing: the extractor returns the same value and logs
    the same diagnostic. *)
Theorem extract_ignores_appended_text :
  forall (text rest : jsstring) (w : world) (i : nat),
    test_array_at text i ->
    extractTestArrayFromText (VStr (text ++ rest)) w =
    extractTestArrayFromText (VStr text) w.
Proof.
  intros text rest w i Hat.
  apply match_here_iff, regex_exec_finds in Hat.
  destruct (regex_exec test_regex text) as [ m | ] eqn:E; [ | now elim Hat ].
  destruct (regex_exec_extend text rest m E) as (m' & E' & Hm').
  rewrite !extract_cases, E, E'.
  destruct m as [ whole cap ], m' as [ whole' cap' ]. simpl in Hm'.
  now subst cap'.
Qed.

Lemma extract_ignores_appended_text_witness :
  test_array_at flat_example 0
  /\ extractTestArrayFromText
       (VStr (flat_example ++ str " and " ++ nested_example)) offline_world =
     extractTestArrayFromText (VStr flat_example) offline_world.
Proof.
  assert (H : test_array_at flat_example 0).
  { exists [], [32], (str "1, 2, 3"), []. repeat split. }
  split; [ exact H | ].
  apply (extract_ignores_appended_text flat_example
           (str " and " ++ nested_example) offline_world 0 H).
Defined.

(** *** The two diagnostics *)

(** X13. The extractor logs that no test array was found exactly when
    the pattern stands nowhere in the text: a match always has a
    non-empty capture, so a text that holds the pattern is parsed, and
    its failure is reported by the other diagnostic. *)
Theorem extract_no_array_iff :
  forall (text : jsstring) (w : world),
    extractTestArrayFromText (VStr text) w =
      (Return VNull, [no_array_diagnostic])
    <-> (forall i, ~ test_array_at text i).
Proof.
  intros text w. rewrite extract_cases. split.
  - destruct (regex_exec test_regex text) as [ m | ] eqn:E.
    + destruct (regex_exec_capture _ _ E) as (body & Hm & _).
      destruct m as [ whole cap ]. simpl in Hm. subst cap.
      destruct (JSON_parse (LBRACKET :: body ++ [RBRACKET]));
        intros H; discriminate H.
    + intros _ i Hat. apply match_here_iff in Hat. apply Hat.
      now apply regex_exec_None_all.
  - intros H. rewrite regex_exec_None; [ reflexivity | ].
    intros i.
    destruct (match_here test_regex (skipn i text)) eqn:E; [ | reflexivity ].
    elim (H i). apply match_here_iff. congruence.
Qed.

(** X14. A text without a double quote, without a colon, without an
    opening bracket or without a closing bracket holds no test array:
    the extractor returns [null] with the diagnostic that says so.  A
    key between single quotes, or without quotes, is not recognized. *)
Theorem extract_needs_delimiters :
  forall (text : jsstring) (w : world),
    ~ In QUOTE text \/ ~ In COLON text
    \/ ~ In LBRACKET text \/ ~ In RBRACKET text ->
    extractTestArrayFromText (VStr text) w =
      (Return VNull, [no_array_diagnostic]).
Proof.
  intros text w H. apply extract_no_array_iff.
  intros i (ws1 & ws2 & body & rest & E & _).
  assert (Hs : forall c, In c (skipn i text) -> In c text).
  { intros c Hc. rewrite <- (firstn_skipn i text). apply in_or_app. now right. }
  assert (Hq : In QUOTE text).
  { apply Hs. rewrite E. now left. }
  assert (Hc : In COLON text).
  { apply Hs. rewrite E, !in_app_iff. right. right. now left. }
  assert (Hl : In LBRACKET text).
  { apply Hs. rewrite E, !in_app_iff. right. right. right.
    rewrite in_app_iff. right. now left. }
  assert (Hr : In RBRACKET text).
  { apply Hs. rewrite E, !in_app_iff. right. right. right.
    rewrite in_app_iff. right. right.
    rewrite in_app_iff. right. now left. }
  tauto.
Qed.

Lemma extract_needs_delimiters_witness :
  (~ In QUOTE (str "{'test': [1, 2, 3]}")
   \/ ~ In COLON (str "{'test': [1, 2, 3]}")
   \/ ~ In LBRACKET (str "{'test': [1, 2, 3]}")
   \/ ~ In RBRACKET (str "{'test': [1, 2, 3]}"))
  /\ extractTestArrayFromText (VStr (str "{'test': [1, 2, 3]}"))
       offline_world =
     (Return VNull, [no_array_diagnostic]).
Proof.
  assert (H : ~ In QUOTE (str "{'test': [1, 2, 3]}")
              \/ ~ In COLON (str "{'test': [1, 2, 3]}")
              \/ ~ In LBRACKET (str "{'test': [1, 2, 3]}")
              \/ ~ In RBRACKET (str "{'test': [1, 2, 3]}")).
  { left. vm_compute. intuition discriminate. }
  split; [ exact H | ].
  apply (extract_needs_delimiters (str "{'test': [1, 2, 3]}") offline_world H).
Defined.

(** *** The empty array *)

Lemma skip_ws_gap (gap rest : jsstring) (c : N) :
  forallb is_json_ws gap = true -> is_json_ws c = false ->
  skip_ws (gap ++ c :: rest) = c :: rest.
Proof.
  intros Hg Hc. induction gap as [ | x gap IH ]; simpl.
  - now rewrite Hc.
  - simpl in Hg. apply andb_true_iff in Hg as [-> Hg]. now apply IH.
Qed.

(** A pair of brackets around JSON whitespace is the empty array. *)
Lemma JSON_parse_empty_array (gap : jsstring) :
  forallb is_json_ws gap = true ->
  JSON_parse (LBRACKET :: gap ++ [RBRACKET]) = Return (VArr []).
Proof.
  intros Hg. unfold JSON_parse.
  rewrite Nat.add_comm. cbn [Nat.add parse_value skip_ws].
  change (is_json_ws LBRACKET) with false. cbv iota.
  rewrite N.eqb_refl, (skip_ws_gap gap [] RBRACKET Hg eq_refl), N.eqb_refl.
  reflexivity.
Qed.

(** JSON whitespace holds no closing bracket. *)
Lemma json_ws_not_rbracket (gap : jsstring) :
  forallb is_json_ws gap = true -> forallb not_rbracket gap = true.
Proof.
  intros Hg. apply forallb_forall. intros c Hc.
  rewrite forallb_forall in Hg. specialize (Hg c Hc).
  unfold not_rbracket. destruct (N.eqb_spec c RBRACKET) as [ -> | ];
    [ discriminate Hg | reflexivity ].
Qed.

(** X15. Where the first test array of a text is empty, with nothing
    but JSON whitespace between its brackets, the extractor returns the
    empty array, not [null], and logs nothing. *)
Theorem extract_empty_array :
  forall (before ws1 ws2 gap rest : jsstring) (w : world),
    forallb is_regex_space ws1 = true ->
    forallb is_regex_space ws2 = true ->
    forallb is_json_ws gap = true ->
    (forall i, (i < length before)%nat ->
               ~ test_array_at
                   (before ++ quoted "test" ++ ws1 ++ COLON :: ws2
                      ++ LBRACKET :: gap ++ RBRACKET :: rest) i) ->
    extractTestArrayFromText
      (VStr (before ++ quoted "test" ++ ws1 ++ COLON :: ws2
               ++ LBRACKET :: gap ++ RBRACKET :: rest)) w =
    (Return (VArr []), []).
Proof.
  intros before ws1 ws2 gap rest w H1 H2 Hg Hfirst.
  rewrite extract_cases, regex_exec_skip.
  2:{ intros i Hi.
      destruct (match_here test_regex (skipn i _)) eqn:E; [ | reflexivity ].
      elim (Hfirst i Hi). apply match_here_iff. congruence. }
  rewrite regex_exec_eq.
  destruct (match_here_complete ws1 ws2 gap rest H1 H2
              (json_ws_not_rbracket gap Hg)) as (whole & ->).
  cbv beta iota. now rewrite (JSON_parse_empty_array gap Hg).
Qed.

Lemma extract_empty_array_witness :
  forallb is_regex_space [] = true
  /\ forallb is_regex_space [32] = true
  /\ forallb is_json_ws [32; 10] = true
  /\ (forall i, (i < length (@nil N))%nat ->
                ~ test_array_at
                    ([] ++ quoted "test" ++ [] ++ COLON :: [32]
                       ++ LBRACKET :: [32; 10] ++ RBRACKET :: str "}") i)
  /\ extractTestArrayFromText
       (VStr ([] ++ quoted "test" ++ [] ++ COLON :: [32]
                ++ LBRACKET :: [32; 10] ++ RBRACKET :: str "}"))
       offline_world =
     (Return (VArr []), []).
Proof.
  assert (H : forall i, (i < length (@nil N))%nat ->
                ~ test_array_at
                    ([] ++ quoted "test" ++ [] ++ COLON :: [32]
                       ++ LBRACKET :: [32; 10] ++ RBRACKET :: str "}") i).
  { intros i Hi. simpl in Hi. lia. }
  split; [ reflexivity | split; [ reflexivity | split; [ reflexivity | ] ] ].
  split; [ exact H | ].
  apply (extract_empty_array [] [] [32] [32; 10] (str "}") offline_world
           eq_refl eq_refl eq_refl H).
Defined.

(** ** The body on the wire *)

(** *** Strings survive quoting *)

Lemma hex_value_digit (n : N) : n < 16 -> hex_value (hex_digit n) = Some n.
Proof.
  intros Hn. unfold hex_digit, hex_value, is_digit.
  destruct (N.ltb_spec n 10) as [ H | H ].
  - replace (48 <=? 48 + n) with true by (symmetry; apply N.leb_le; lia).
    replace (48 + n <=? 57) with true by (symmetry; apply N.leb_le; lia).
    cbn [andb]. f_equal. lia.
  - replace (87 + n <=? 57) with false by (symmetry; apply N.leb_gt; lia).
    rewrite andb_false_r.
    replace (97 <=? 87 + n) with true by (symmetry; apply N.leb_le; lia).
    replace (87 + n <=? 102) with true by (symmetry; apply N.leb_le; lia).
    cbn [andb]. f_equal. lia.
Qed.

(** The four hexadecimal digits of a code unit give it back. *)
Lemma hex4_digits (c : N) :
  c < 65536 ->
  hex4 (hex_digit (c / 4096)) (hex_digit ((c / 256) mod 16))
       (hex_digit ((c / 16) mod 16)) (hex_digit (c mod 16)) = Some c.
Proof.
  intros Hc. unfold hex4.
  rewrite !hex_value_digit;
    try (apply N.mod_lt; discriminate);
    try (apply N.Div0.div_lt_upper_bound; lia).
  f_equal. zify. Z.to_euclidean_division_equations. lia.
Qed.

Lemma parse_plain_char (c : N) (t : jsstring) :
  c <> QUOTE -> c <> BACKSLASH -> 32 <= c ->
  parse_string_chars (c :: t) = cons_fst c (parse_string_chars t).
Proof.
  intros Hq Hb Hc. cbn [parse_string_chars].
  apply N.eqb_neq in Hq, Hb. rewrite Hq, Hb.
  replace (c <? 32) with false by (symmetry; apply N.ltb_ge; exact Hc).
  reflexivity.
Qed.

Lemma parse_short_escape (e u : N) (t : jsstring) :
  unescape e = Some u -> e <> 117 ->
  parse_string_chars (BACKSLASH :: e :: t) =
    cons_fst u (parse_string_chars t).
Proof.
  intros Hu He. cbn [parse_string_chars].
  change (BACKSLASH =? QUOTE) with false.
  change (BACKSLASH =? BACKSLASH) with true. cbv iota.
  apply N.eqb_neq in He. now rewrite He, Hu.
Qed.

Lemma parse_unicode_escape (c : N) (t : jsstring) :
  c < 65536 ->
  parse_string_chars (unicode_escape c ++ t) =
    cons_fst c (parse_string_chars t).
Proof.
  intros Hc. unfold unicode_escape.
  change (str "\u") with [BACKSLASH; 117]. cbn [app parse_string_chars].
  change (BACKSLASH =? QUOTE) with false.
  change (BACKSLASH =? BACKSLASH) with true.
  change (117 =? 117) with true. cbv iota.
  now rewrite (hex4_digits c Hc).
Qed.

Lemma quote_chars_cons (c : N) (s' : jsstring) :
  quote_chars (c :: s') =
  if c =? 8 then str "\b" ++ quote_chars s'
  else if c =? 9 then str "\t" ++ quote_chars s'
  else if c =? 10 then str "\n" ++ quote_chars s'
  else if c =? 12 then str "\f" ++ quote_chars s'
  else if c =? 13 then str "\r" ++ quote_chars s'
  else if c =? QUOTE then [BACKSLASH; QUOTE] ++ quote_chars s'
  else if c =? BACKSLASH then [BACKSLASH; BACKSLASH] ++ quote_chars s'
  else if c <? 32 then unicode_escape c ++ quote_chars s'
  else if is_high_surrogate c then
    match s' with
    | d :: s'' =>
        if is_low_surrogate d then c :: d :: quote_chars s''
        else unicode_escape c ++ quote_chars s'
    | [] => unicode_escape c
    end
  else if is_low_surrogate c then unicode_escape c ++ quote_chars s'
  else c :: quote_chars s'.
Proof. reflexivity. Qed.

(** One short escape, then the rest by [H]. *)
Ltac short_escape lit e u H :=
  rewrite <- app_assoc; change lit with [BACKSLASH; e]; cbn [app];
  rewrite (parse_short_escape e u) by (reflexivity || discriminate);
  first [ now rewrite H | reflexivity ].

(** The characters that [QuoteJSONString] writes, read back as the
    characters of a JSON string, are the string. *)
Lemma parse_quote_chars_step (s : jsstring) :
  (forall rest,
      parse_string_chars (quote_chars s ++ QUOTE :: rest) = Some (s, rest))
  /\ (forall c rest,
      parse_string_chars (quote_chars (c :: s) ++ QUOTE :: rest) =
        Some (c :: s, rest)).
Proof.
  induction s as [ | x s [ IH0 IH1 ] ].
  - assert (H0 : forall rest,
               parse_string_chars ([] ++ QUOTE :: rest) = Some ([], rest)).
    { intros rest. reflexivity. }
    split; [ exact H0 | ].
    intros c rest. rewrite quote_chars_cons.
    destruct (N.eqb_spec c 8) as [ -> | H8 ].
    { short_escape (str "\b") 98 8 H0. }
    destruct (N.eqb_spec c 9) as [ -> | H9 ].
    { short_escape (str "\t") 116 9 H0. }
    destruct (N.eqb_spec c 10) as [ -> | H10 ].
    { short_escape (str "\n") 110 10 H0. }
    destruct (N.eqb_spec c 12) as [ -> | H12 ].
    { short_escape (str "\f") 102 12 H0. }
    destruct (N.eqb_spec c 13) as [ -> | H13 ].
    { short_escape (str "\r") 114 13 H0. }
    destruct (N.eqb_spec c QUOTE) as [ -> | Hq ].
    { short_escape [BACKSLASH; QUOTE] QUOTE QUOTE H0. }
    destruct (N.eqb_spec c BACKSLASH) as [ -> | Hb ].
    { short_escape [BACKSLASH; BACKSLASH] BACKSLASH BACKSLASH H0. }
    destruct (N.ltb_spec c 32) as [ Hc | Hc ].
    { rewrite <- app_assoc, parse_unicode_escape by lia. first [ now rewrite H0 | reflexivity ]. }
    destruct (is_high_surrogate c) eqn:Hh.
    { unfold is_high_surrogate in Hh. apply andb_true_iff in Hh as [_ Hh].
      apply N.leb_le in Hh.
      rewrite parse_unicode_escape by lia.
      change (parse_string_chars (QUOTE :: rest)) with (Some (@nil N, rest)).
      reflexivity. }
    destruct (is_low_surrogate c) eqn:Hl.
    { unfold is_low_surrogate in Hl. apply andb_true_iff in Hl as [_ Hl].
      apply N.leb_le in Hl.
      rewrite <- app_assoc, parse_unicode_escape by lia. first [ now rewrite H0 | reflexivity ]. }
    cbn [app]. rewrite parse_plain_char by assumption. first [ now rewrite H0 | reflexivity ].
  - split; [ apply IH1 | ].
    intros c rest. rewrite quote_chars_cons.
    destruct (N.eqb_spec c 8) as [ -> | H8 ].
    { short_escape (str "\b") 98 8 IH1. }
    destruct (N.eqb_spec c 9) as [ -> | H9 ].
    { short_escape (str "\t") 116 9 IH1. }
    destruct (N.eqb_spec c 10) as [ -> | H10 ].
    { short_escape (str "\n") 110 10 IH1. }
    destruct (N.eqb_spec c 12) as [ -> | H12 ].
    { short_escape (str "\f") 102 12 IH1. }
    destruct (N.eqb_spec c 13) as [ -> | H13 ].
    { short_escape (str "\r") 114 13 IH1. }
    destruct (N.eqb_spec c QUOTE) as [ -> | Hq ].
    { short_escape [BACKSLASH; QUOTE] QUOTE QUOTE IH1. }
    destruct (N.eqb_spec c BACKSLASH) as [ -> | Hb ].
    { short_escape [BACKSLASH; BACKSLASH] BACKSLASH BACKSLASH IH1. }
    destruct (N.ltb_spec c 32) as [ Hc | Hc ].
    { rewrite <- app_assoc, parse_unicode_escape by lia. now rewrite IH1. }
    destruct (is_high_surrogate c) eqn:Hh.
    { unfold is_high_surrogate in Hh. apply andb_true_iff in Hh as [Hh1 Hh2].
      apply N.leb_le in Hh1, Hh2.
      destruct (is_low_surrogate x) eqn:Hx.
      - unfold is_low_surrogate in Hx. apply andb_true_iff in Hx as [Hx1 Hx2].
        apply N.leb_le in Hx1, Hx2.
        cbn [app].
        rewrite (parse_plain_char c)
          by (unfold QUOTE, BACKSLASH; lia).
        rewrite (parse_plain_char x)
          by (unfold QUOTE, BACKSLASH; lia).
        now rewrite IH0.
      - rewrite <- app_assoc, parse_unicode_escape by lia. now rewrite IH1. }
    destruct (is_low_surrogate c) eqn:Hl.
    { unfold is_low_surrogate in Hl. apply andb_true_iff in Hl as [_ Hl].
      apply N.leb_le in Hl.
      rewrite <- app_assoc, parse_unicode_escape by lia. now rewrite IH1. }
    cbn [app]. rewrite parse_plain_char by assumption. now rewrite IH1.
Qed.

Lemma parse_quoted_string (s rest : jsstring) :
  parse_string_chars (quote_chars s ++ QUOTE :: rest) = Some (s, rest).
Proof. apply parse_quote_chars_step. Qed.

(** *** Values survive serialization *)

(** Induction on values, through their arrays and objects. *)
Lemma value_ind_nested (P : value -> Prop) :
  P VUndefined -> P VNull -> (forall b, P (VBool b)) ->
  (forall q, P (VNum q)) -> (forall s, P (VStr s)) ->
  (forall items, Forall P items -> P (VArr items)) ->
  (forall props, Forall (fun kv => P (snd kv)) props -> P (VObj props)) ->
  forall v, P v.
Proof.
  intros Hu Hn Hb Hq Hs Ha Ho.
  fix IH 1. intros [ | | b | q | s | items | props ].
  - exact Hu.
  - exact Hn.
  - apply Hb.
  - apply Hq.
  - apply Hs.
  - apply Ha. induction items as [ | x items IHi ]; constructor;
      [ apply IH | exact IHi ].
  - apply Ho. induction props as [ | [k x] props IHp ]; constructor;
      [ apply IH | exact IHp ].
Qed.

(** More fuel does not change an answer. *)
Lemma parse_more_fuel (fuel extra : nat) :
  (forall s, parse_value fuel s <> OutOfFuel ->
             parse_value (extra + fuel) s = parse_value fuel s)
  /\ (forall s acc, parse_elements fuel s acc <> OutOfFuel ->
                    parse_elements (extra + fuel) s acc =
                    parse_elements fuel s acc)
  /\ (forall s acc, parse_members fuel s acc <> OutOfFuel ->
                    parse_members (extra + fuel) s acc =
                    parse_members fuel s acc).
Proof.
  induction extra as [ | extra (IHv & IHe & IHm) ];
    [ repeat split; reflexivity | ].
  cbn [Nat.add].
  destruct (parse_fuel_stable (extra + fuel)) as (Sv & Se & Sm).
  split; [ | split ].
  - intros s H. rewrite Sv; rewrite (IHv s H); [ reflexivity | exact H ].
  - intros s acc H.
    rewrite Se; rewrite (IHe s acc H); [ reflexivity | exact H ].
  - intros s acc H.
    rewrite Sm; rewrite (IHm s acc H); [ reflexivity | exact H ].
Qed.

Lemma parse_value_fuel_le (f f' : nat) (s : jsstring) (v : value)
      (r : jsstring) :
  parse_value f s = Parsed v r -> (f <= f')%nat ->
  parse_value f' s = Parsed v r.
Proof.
  intros H Hle. replace f' with ((f' - f) + f)%nat by lia.
  rewrite (proj1 (parse_more_fuel f (f' - f))); [ exact H | ].
  rewrite H. discriminate.
Qed.

Lemma parse_elements_fuel_le (f f' : nat) (s : jsstring) (acc : list value)
      (v : value) (r : jsstring) :
  parse_elements f s acc = Parsed v r -> (f <= f')%nat ->
  parse_elements f' s acc = Parsed v r.
Proof.
  intros H Hle. replace f' with ((f' - f) + f)%nat by lia.
  rewrite (proj1 (proj2 (parse_more_fuel f (f' - f)))); [ exact H | ].
  rewrite H. discriminate.
Qed.

Lemma parse_members_fuel_le (f f' : nat) (s : jsstring)
      (acc : list (jsstring * value)) (v : value) (r : jsstring) :
  parse_members f s acc = Parsed v r -> (f <= f')%nat ->
  parse_members f' s acc = Parsed v r.
Proof.
  intros H Hle. replace f' with ((f' - f) + f)%nat by lia.
  rewrite (proj2 (proj2 (parse_more_fuel f (f' - f)))); [ exact H | ].
  rewrite H. discriminate.
Qed.

(** What some fuel parses, the fuel of [JSON_parse] parses. *)
Lemma JSON_parse_of_fuel (fuel : nat) (text : jsstring) (v : value) :
  parse_value fuel text = Parsed v [] -> JSON_parse text = Return v.
Proof.
  intros H. unfold JSON_parse.
  assert (E : parse_value (2 * length text + 1) text = Parsed v []).
  { destruct (Nat.le_ge_cases fuel (2 * length text + 1)) as [ Hle | Hge ].
    - now apply parse_value_fuel_le with fuel.
    - destruct (JSON_parse_fuel text (fuel - (2 * length text + 1)))
        as (_ & Hs).
      replace (fuel - (2 * length text + 1) + (2 * length text + 1))%nat
        with fuel in Hs by lia.
      now rewrite <- Hs. }
  rewrite E. reflexivity.
Qed.

Lemma stringify_wire_safe (w : world) (v : value) :
  wire_safe v = true -> stringify w v = Some (json_text w v).
Proof.
  unfold json_text. destruct v; simpl; try discriminate; reflexivity.
Qed.

(** The text of a value starts with a code unit that is neither JSON
    whitespace nor a closing bracket. *)
Lemma json_text_head (w : world) (v : value) :
  wire_safe v = true ->
  exists c t,
    json_text w v = c :: t
    /\ is_json_ws c = false
    /\ (c =? RBRACKET) = false.
Proof.
  unfold json_text.
  destruct v as [ | | [ | ] | q | s | items | props ]; simpl;
    try discriminate; intros _; eexists; eexists;
    (split; [ reflexivity | split; reflexivity ]).
Qed.

(** The elements of an array, written and separated by commas, are read
    back by the element loop. *)
Lemma parse_elements_texts (w : world) (items : list value) :
  Forall (fun x => forall rest, exists f,
                     parse_value f (json_text w x ++ rest) = Parsed x rest)
         items ->
  items <> [] ->
  forall acc rest, exists f,
    parse_elements f
      (join [COMMA] (map (json_text w) items) ++ RBRACKET :: rest) acc =
    Parsed (VArr (acc ++ items)) rest.
Proof.
  induction items as [ | x items IH ]; [ congruence | ].
  intros HF _ acc rest. inversion HF as [ | x' items' Hx Hitems ]; subst.
  destruct items as [ | y items ].
  - destruct (Hx (RBRACKET :: rest)) as (f & Hf).
    exists (S f). cbn [map join parse_elements]. rewrite Hf.
    reflexivity.
  - destruct (IH Hitems ltac:(discriminate) (acc ++ [x]) rest) as (f2 & Hf2).
    set (tail := join [COMMA] (map (json_text w) (y :: items))
                 ++ RBRACKET :: rest) in *.
    destruct (Hx (COMMA :: tail)) as (f1 & Hf1).
    exists (S (Nat.max f1 f2)).
    assert (E : join [COMMA] (map (json_text w) (x :: y :: items))
                ++ RBRACKET :: rest =
                json_text w x ++ COMMA :: tail).
    { subst tail. cbn [map join]. now rewrite <- !app_assoc. }
    rewrite E. cbn [parse_elements].
    rewrite (parse_value_fuel_le f1 _ _ _ _ Hf1) by lia.
    cbn [skip_ws]. change (is_json_ws COMMA) with false. cbv iota.
    rewrite N.eqb_refl.
    rewrite (parse_elements_fuel_le f2 _ _ _ _ _ Hf2) by lia.
    now rewrite <- app_assoc.
Qed.

(** A key that the object does not have yet is added at the end. *)
Lemma set_property_fresh (acc : list (jsstring * value)) (k : jsstring)
      (v : value) :
  ~ In k (map fst acc) -> set_property acc k v = acc ++ [(k, v)].
Proof.
  induction acc as [ | [k0 v0] acc IH ]; intros H; [ reflexivity | ].
  simpl. destruct (list_eq_dec N.eq_dec k0 k) as [ -> | _ ].
  - elim H. now left.
  - rewrite IH; [ reflexivity | ]. intros Hin. apply H. now right.
Qed.

(** The properties of an object, written and separated by commas, are
    read back by the member loop when no key comes twice. *)
Lemma parse_members_texts (w : world) (props : list (jsstring * value)) :
  Forall (fun kv => forall rest, exists f,
                      parse_value f (json_text w (snd kv) ++ rest) =
                        Parsed (snd kv) rest)
         props ->
  props <> [] ->
  forall acc rest,
    NoDup (map fst (acc ++ props)) ->
    exists f,
      parse_members f
        (join [COMMA] (map (member_text w) props) ++ RBRACE :: rest) acc =
      Parsed (VObj (acc ++ props)) rest.
Proof.
  induction props as [ | [k x] props IH ]; [ congruence | ].
  intros HF _ acc rest Hnd. inversion HF as [ | kv props' Hx Hprops ]; subst.
  simpl in Hx.
  assert (Hfresh : set_property acc k x = acc ++ [(k, x)]).
  { apply set_property_fresh. rewrite map_app in Hnd. simpl in Hnd.
    apply NoDup_remove_2 in Hnd. intros Hin. apply Hnd.
    apply in_or_app. now left. }
  destruct props as [ | y props ].
  - destruct (Hx (RBRACE :: rest)) as (f & Hf).
    exists (S f). cbn [map join parse_members].
    unfold member_text, QuoteJSONString. cbn [fst snd].
    repeat (rewrite <- app_assoc; cbn [app]).
    cbn [skip_ws]. change (is_json_ws QUOTE) with false. cbv iota.
    rewrite N.eqb_refl, parse_quoted_string.
    cbn [skip_ws]. change (is_json_ws COLON) with false. cbv iota.
    rewrite N.eqb_refl, Hf.
    cbn [skip_ws]. change (is_json_ws RBRACE) with false. cbv iota.
    change (RBRACE =? COMMA) with false. rewrite N.eqb_refl. cbv iota.
    now rewrite Hfresh.
  - assert (Hnd' : NoDup (map fst ((acc ++ [(k, x)]) ++ y :: props))).
    { now rewrite <- app_assoc. }
    destruct (IH Hprops ltac:(discriminate) (acc ++ [(k, x)]) rest Hnd')
      as (f2 & Hf2).
    set (tail := join [COMMA] (map (member_text w) (y :: props))
                 ++ RBRACE :: rest) in *.
    destruct (Hx (COMMA :: tail)) as (f1 & Hf1).
    exists (S (Nat.max f1 f2)).
    assert (E : join [COMMA] (map (member_text w) ((k, x) :: y :: props))
                ++ RBRACE :: rest =
                QUOTE :: quote_chars k
                  ++ QUOTE :: COLON :: json_text w x ++ COMMA :: tail).
    { subst tail. cbn [map join]. unfold member_text at 1, QuoteJSONString.
      cbn [fst snd]. repeat (rewrite <- app_assoc; cbn [app]). reflexivity. }
    rewrite E. cbn [parse_members].
    cbn [skip_ws]. change (is_json_ws QUOTE) with false. cbv iota.
    rewrite N.eqb_refl, parse_quoted_string.
    cbn [skip_ws]. change (is_json_ws COLON) with false. cbv iota.
    rewrite N.eqb_refl.
    rewrite (parse_value_fuel_le f1 _ _ _ _ Hf1) by lia.
    cbn [skip_ws]. change (is_json_ws COMMA) with false. cbv iota.
    rewrite N.eqb_refl, Hfresh.
    rewrite (parse_members_fuel_le f2 _ _ _ _ _ Hf2) by lia.
    now rewrite <- app_assoc.
Qed.

Lemma parse_value_array (f : nat) (s' : jsstring) (c : N) (t : jsstring) :
  s' = c :: t -> is_json_ws c = false -> (c =? RBRACKET) = false ->
  parse_value (S f) (LBRACKET :: s') = parse_elements f s' [].
Proof.
  intros -> H1 H2. cbn [parse_value skip_ws].
  change (is_json_ws LBRACKET) with false. cbv iota.
  rewrite N.eqb_refl. cbn [skip_ws]. rewrite H1, H2. reflexivity.
Qed.

Lemma parse_value_object (f : nat) (s' t : jsstring) :
  s' = QUOTE :: t ->
  parse_value (S f) (LBRACE :: s') = parse_members f s' [].
Proof. intros ->. reflexivity. Qed.

Lemma distinct_keys_NoDup (props : list (jsstring * value)) :
  distinct_keys props = true -> NoDup (map fst props).
Proof.
  induction props as [ | [k x] props IH ]; [ constructor | ].
  simpl.
  destruct (in_dec (list_eq_dec N.eq_dec) k (map fst props)) as [ | Hn ];
    [ discriminate | ].
  intros H. constructor; [ exact Hn | now apply IH ].
Qed.

Lemma flat_map_members (w : world) (props : list (jsstring * value)) :
  forallb (fun kv => match kv with (_, x) => wire_safe x end) props = true ->
  flat_map (fun kv => match kv with
                      | (k, x) =>
                          match stringify w x with
                          | Some t => [QuoteJSONString k ++ [COLON] ++ t]
                          | None => []
                          end
                      end) props =
  map (member_text w) props.
Proof.
  induction props as [ | [k x] props IH ]; [ reflexivity | ].
  intros H. cbn [forallb] in H. apply andb_true_iff in H as [Hx Hp].
  cbn [flat_map map]. rewrite (IH Hp), (stringify_wire_safe w x Hx).
  reflexivity.
Qed.

(** The text of a value that JSON carries as it is, followed by anything,
    is read back as that value, and what followed is left. *)
Lemma parse_json_text (w : world) (v : value) :
  wire_safe v = true ->
  forall rest, exists f, parse_value f (json_text w v ++ rest) = Parsed v rest.
Proof.
  induction v as [ | | b | q | s | items IH | props IH ]
    using value_ind_nested; intros Hs rest; try discriminate Hs.
  - exists 1%nat. reflexivity.
  - exists 1%nat. destruct b; reflexivity.
  - exists 1%nat. unfold json_text. cbn [stringify].
    unfold QuoteJSONString. cbn [app parse_value skip_ws].
    change (is_json_ws QUOTE) with false. cbv iota.
    change (QUOTE =? LBRACKET) with false.
    change (QUOTE =? LBRACE) with false. rewrite N.eqb_refl. cbv iota.
    rewrite <- app_assoc. cbn [app]. now rewrite parse_quoted_string.
  - cbn [wire_safe] in Hs.
    assert (Hgood : Forall (fun x => forall rest, exists f,
                       parse_value f (json_text w x ++ rest) = Parsed x rest)
                      items).
    { rewrite forallb_forall in Hs. rewrite Forall_forall in IH |- *.
      intros x Hx. apply (IH x Hx). now apply Hs. }
    assert (E : json_text w (VArr items) ++ rest =
                LBRACKET :: join [COMMA] (map (json_text w) items)
                  ++ RBRACKET :: rest).
    { unfold json_text at 1. cbn [stringify].
      cbn [app]. now rewrite <- app_assoc. }
    rewrite E. destruct items as [ | x items ].
    { exists 1%nat. reflexivity. }
    destruct (parse_elements_texts w (x :: items) Hgood ltac:(discriminate)
                [] rest) as (f & Hf).
    exists (S f).
    assert (Hx : wire_safe x = true).
    { simpl in Hs. now apply andb_true_iff in Hs as [Hx _]. }
    destruct (json_text_head w x Hx) as (c & t & Ec & Hws & Hrb).
    rewrite (parse_value_array f _ c
               (match items with
                | [] => t
                | _ :: _ => t ++ [COMMA]
                            ++ join [COMMA] (map (json_text w) items)
                end ++ RBRACKET :: rest)); [ exact Hf | | exact Hws | exact Hrb ].
    cbn [map join]. rewrite Ec.
    destruct items; cbn [map]; reflexivity.
  - cbn [wire_safe] in Hs. apply andb_true_iff in Hs as [Hkeys Hvals].
    assert (Hgood : Forall (fun kv => forall rest, exists f,
                       parse_value f (json_text w (snd kv) ++ rest) =
                         Parsed (snd kv) rest) props).
    { rewrite forallb_forall in Hvals. rewrite Forall_forall in IH |- *.
      intros [k x] Hx. apply (IH (k, x) Hx). exact (Hvals (k, x) Hx). }
    assert (E : json_text w (VObj props) ++ rest =
                LBRACE :: join [COMMA] (map (member_text w) props)
                  ++ RBRACE :: rest).
    { unfold json_text at 1. cbn [stringify].
      rewrite (flat_map_members w props Hvals).
      cbn [app]. now rewrite <- app_assoc. }
    rewrite E. destruct props as [ | [k x] props ].
    { exists 1%nat. reflexivity. }
    destruct (parse_members_texts w ((k, x) :: props) Hgood
                ltac:(discriminate) [] rest
                (distinct_keys_NoDup _ Hkeys)) as (f & Hf).
    exists (S f).
    assert (Eq : exists t,
               join [COMMA] (map (member_text w) ((k, x) :: props))
                 ++ RBRACE :: rest = QUOTE :: t).
    { clear. destruct props as [ | p props ]; cbn [map join];
        unfold member_text at 1, QuoteJSONString; cbn [app fst];
        eexists; reflexivity. }
    destruct Eq as (t & Eq).
    rewrite (parse_value_object f _ t Eq). exact Hf.
Qed.

(** The body posted for a payload that JSON carries as it is decodes to
    the payload. *)
Lemma posted_body_decodes_to_payload_aux (w : world) (payload : value) :
  wire_safe payload = true ->
  exists text,
    fetches (trace (makeRequest payload) w) =
      [Fetch ENDPOINT (json_post (Some text))]
    /\ JSON_parse text = Return payload.
Proof.
  intros Hs. exists (json_text w payload). split.
  - rewrite makeRequest_fetches, (stringify_wire_safe w payload Hs).
    reflexivity.
  - destruct (parse_json_text w payload Hs []) as (f & Hf).
    rewrite app_nil_r in Hf. exact (JSON_parse_of_fuel f _ _ Hf).
Qed.

(** X16. For every payload made of [null], booleans, strings, arrays and
    objects without a repeated key, the body that [makeRequest] posts is
    a JSON text that [JSON.parse] reads back as the payload: no character
    of a string can break out of its quotes. *)
Theorem posted_body_decodes_to_payload :
  forall (payload : value) (w : world),
    wire_safe payload = true ->
    exists text,
      fetches (trace (makeRequest payload) w) =
        [Fetch ENDPOINT (json_post (Some text))]
      /\ JSON_parse text = Return payload.
Proof.
  intros payload w Hs. exact (posted_body_decodes_to_payload_aux w payload Hs).
Qed.

Lemma posted_body_decodes_to_payload_witness :
  wire_safe (codellama_payload
               [turn "user" (VStr (quoted "test" ++ str "\ [1]" ++ [10; 55357]))])
    = true
  /\ exists text,
      fetches (trace (makeRequest
                        (codellama_payload
                           [turn "user"
                              (VStr (quoted "test" ++ str "\ [1]"
                                     ++ [10; 55357]))]))
                 offline_world) =
        [Fetch ENDPOINT (json_post (Some text))]
      /\ JSON_parse text =
           Return (codellama_payload
                     [turn "user"
                        (VStr (quoted "test" ++ str "\ [1]" ++ [10; 55357]))]).
Proof.
  split; [ reflexivity | ].
  apply (posted_body_decodes_to_payload
           (codellama_payload
              [turn "user" (VStr (quoted "test" ++ str "\ [1]" ++ [10; 55357]))])
           offline_world).
  reflexivity.
Defined.

Lemma wire_safe_turn (role : string) (content : value) :
  wire_safe content = true -> wire_safe (turn role content) = true.
Proof.
  intros H. unfold turn. cbn [wire_safe forallb]. rewrite H. reflexivity.
Qed.

Lemma wire_safe_payload (messages : list value) :
  forallb wire_safe messages = true ->
  wire_safe (codellama_payload messages) = true.
Proof.
  intros H. unfold codellama_payload, chat_payload.
  cbn [wire_safe forallb]. rewrite H. reflexivity.
Qed.

(** X17. Whatever characters the language, the review focus, the
    question and the format hold, and for every code and prompt that are
    strings (or other values that JSON carries as they are), the single
    body that each request operation posts is a JSON text that decodes to
    the object with the model codellama, the turns of the operation and
    no streaming. *)
Theorem operations_post_decodable_bodies :
  forall (w : world) (code prompt : value)
         (format lang question tformat : jsstring) (numOfCases : Q),
    wire_safe code = true ->
    wire_safe prompt = true ->
    (exists text,
        fetches (trace (codeSuggestions code format lang) w) =
          [Fetch ENDPOINT (json_post (Some text))]
        /\ JSON_parse text =
             Return
               (codellama_payload
                  [turn "user"
                     (VStr (str "As an assistant, please review the provided "
                            ++ lang ++ str " code, focusing on " ++ format));
                   turn "assistant"
                     (VStr (str "Hi, please provide the code that you want suggestions for"));
                   turn "user" code]))
    /\ (exists text,
        fetches (trace (makeTestCases question tformat numOfCases) w) =
          [Fetch ENDPOINT (json_post (Some text))]
        /\ JSON_parse text =
             Return
               (codellama_payload
                  [turn "user"
                     (VStr (test_case_prompt question tformat
                              (Number_toString w numOfCases)))]))
    /\ (exists text,
        fetches (trace (textGen prompt) w) =
          [Fetch ENDPOINT (json_post (Some text))]
        /\ JSON_parse text = Return (codellama_payload [turn "user" prompt])).
Proof.
  intros w code prompt format lang question tformat n Hcode Hprompt.
  split; [ | split ].
  - apply (posted_body_decodes_to_payload_aux w).
    apply wire_safe_payload. cbn [forallb].
    rewrite !wire_safe_turn by (exact Hcode || reflexivity). reflexivity.
  - unfold trace. rewrite makeTestCases_request.
    apply (posted_body_decodes_to_payload_aux w).
    apply wire_safe_payload. cbn [forallb].
    rewrite wire_safe_turn by reflexivity. reflexivity.
  - apply (posted_body_decodes_to_payload_aux w).
    apply wire_safe_payload. cbn [forallb].
    rewrite wire_safe_turn by exact Hprompt. reflexivity.
Qed.

Lemma operations_post_decodable_bodies_witness :
  wire_safe (VStr (str "x = [1]")) = true
  /\ wire_safe VNull = true
  /\ exists text,
      fetches (trace (textGen VNull) offline_world) =
        [Fetch ENDPOINT (json_post (Some text))]
      /\ JSON_parse text = Return (codellama_payload [turn "user" VNull]).
Proof.
  split; [ reflexivity | split; [ reflexivity | ] ].
  apply (operations_post_decodable_bodies offline_world
           (VStr (str "x = [1]")) VNull (str "style") (str "Python")
           (str "Q") (str "F") 10 eq_refl eq_refl).
Defined.

(** ** Extraction of a serialized array *)

(** X18. When a reply holds, under the quoted key test, the text that
    [JSON.stringify] writes for an array of [null]s, booleans, strings
    and objects, when that text has no closing bracket before its last
    one (no nested array, no closing bracket inside a string), and when
    the pattern stands at no earlier index, the extractor returns that
    array, whatever surrounds it, and logs nothing. *)
Theorem extract_serialized_array :
  forall (items : list value) (before ws1 ws2 rest : jsstring) (w : world),
    wire_safe (VArr items) = true ->
    forallb not_rbracket (join [COMMA] (map (json_text w) items)) = true ->
    forallb is_regex_space ws1 = true ->
    forallb is_regex_space ws2 = true ->
    (forall i, (i < length before)%nat ->
               ~ test_array_at
                   (before ++ quoted "test" ++ ws1 ++ COLON :: ws2
                      ++ json_text w (VArr items) ++ rest) i) ->
    extractTestArrayFromText
      (VStr (before ++ quoted "test" ++ ws1 ++ COLON :: ws2
               ++ json_text w (VArr items) ++ rest)) w =
    (Return (VArr items), []).
Proof.
  intros items before ws1 ws2 rest w Hs Hb H1 H2 Hfirst.
  assert (E : json_text w (VArr items) ++ rest =
              LBRACKET :: join [COMMA] (map (json_text w) items)
                ++ RBRACKET :: rest).
  { unfold json_text at 1. cbn [stringify app]. now rewrite <- app_assoc. }
  rewrite E in Hfirst |- *.
  rewrite extract_cases, regex_exec_skip.
  2:{ intros i Hi.
      destruct (match_here test_regex (skipn i _)) eqn:Em; [ | reflexivity ].
      elim (Hfirst i Hi). apply match_here_iff. congruence. }
  rewrite regex_exec_eq.
  destruct (match_here_complete ws1 ws2 _ rest H1 H2 Hb) as (whole & ->).
  cbv beta iota.
  destruct (parse_json_text w (VArr items) Hs []) as (f & Hf).
  rewrite app_nil_r in Hf. apply JSON_parse_of_fuel in Hf.
  assert (E' : json_text w (VArr items) =
               LBRACKET :: join [COMMA] (map (json_text w) items)
                 ++ [RBRACKET]).
  { unfold json_text at 1. cbn [stringify app]. reflexivity. }
  rewrite E' in Hf. now rewrite Hf.
Qed.

Lemma extract_serialized_array_witness :
  let items := [VObj [(str "input", VStr (str "4"));
                      (str "hidden", VBool false)];
                VNull] in
  wire_safe (VArr items) = true
  /\ forallb not_rbracket
       (join [COMMA] (map (json_text offline_world) items)) = true
  /\ forallb is_regex_space [] = true
  /\ forallb is_regex_space [32] = true
  /\ (forall i, (i < length (@nil N))%nat ->
                ~ test_array_at
                    ([] ++ quoted "test" ++ [] ++ COLON :: [32]
                       ++ json_text offline_world (VArr items) ++ str "}") i)
  /\ extractTestArrayFromText
       (VStr ([] ++ quoted "test" ++ [] ++ COLON :: [32]
                ++ json_text offline_world (VArr items) ++ str "}"))
       offline_world =
     (Return (VArr items), []).
Proof.
  cbv zeta.
  assert (H : forall i, (i < length (@nil N))%nat ->
                ~ test_array_at
                    ([] ++ quoted "test" ++ [] ++ COLON :: [32]
                       ++ json_text offline_world
                            (VArr [VObj [(str "input", VStr (str "4"));
                                         (str "hidden", VBool false)];
                                   VNull])
                       ++ str "}") i).
  { intros i Hi. simpl in Hi. lia. }
  split; [ reflexivity | split; [ reflexivity | ] ].
  split; [ reflexivity | split; [ reflexivity | ] ].
  split; [ exact H | ].
  apply (extract_serialized_array
           [VObj [(str "input", VStr (str "4")); (str "hidden", VBool false)];
            VNull]
           [] [] [32] (str "}") offline_world
           eq_refl eq_refl eq_refl eq_refl H).
Defined.
